(** * check_all_bible_text.py: a shallow embedding and its properties

    The script walks a local corpus (one JSON file per chapter), fetches
    the reference text of each chapter, and reports the first differing
    verse.  Python values are embedded as follows:

    - [str] is a list of Unicode code points ([pystr]);
    - [int] is [Z]; list lengths are [nat];
    - a parsed JSON document is a [pyval];
    - exceptions are values of [exn], returned on the left of a sum;
    - the file system, the network and the clock are explicit data. *)

From Stdlib Require Import ZArith NArith Ascii String DecimalString.
From stdpp Require Import base decidable option list sorting gmap sets.

Set Default Proof Using "Type".
Set Warnings "-register-all".
Local Open Scope Z_scope.

(** ** Python strings *)

Module Py.

(** A code point, and a [str]. *)
Abbreviation char := N (only parsing).
Abbreviation pystr := (list N) (only parsing).

(** An ASCII literal as a Python string. *)
Definition lit (s : string) : pystr := N_of_ascii <$> list_ascii_of_string s.

(** [str(n)] for an [int]. *)
Definition str_of_Z (z : Z) : pystr := lit (NilZero.string_of_int (Z.to_int z)).

(** The format spec [:02]: sign-aware zero padding to width two. *)
Definition fmt02 (z : Z) : pystr :=
  let s := str_of_Z z in
  if (length s <? 2)%nat then lit "0" ++ s else s.

(** [s[:k]] *)
Definition slice_to (k : nat) (s : pystr) : pystr := take k s.

(** [s.replace(old, new)] for one-character [old] and [new]. *)
Definition replace (old new : char) (s : pystr) : pystr :=
  (λ c, if (c =? old)%N then new else c) <$> s.

(** [s.endswith(suffix)] *)
Definition endswith (s suffix : pystr) : bool :=
  bool_decide (drop (length s - length suffix) s = suffix).

(** ** Parsed JSON

    What [json.load] and [r.json()] return.  A float is kept as its
    binary64 bit pattern; an object is an association list in document
    order with distinct keys. *)

Inductive pyval :=
| PNone
| PBool (b : bool)
| PInt (z : Z)
| PFloat (bits : Z)
| PStr (s : pystr)
| PList (l : list pyval)
| PDict (d : list (pystr * pyval)).

(** ** Exceptions *)

Inductive exn :=
| FileNotFoundError (book : pystr) (chapter_num : Z)
| OSError (msg : pystr)
| JSONDecodeError (msg : pystr)
| AttributeError
| TypeError
| KeyError
| IndexError
| RequestException (msg : pystr)
| HTTPError (status : Z)
| UnicodeEncodeError
| RuntimeError (book : pystr) (chapter_num : Z) (last_err : option exn).

(** A computation that returns an [A] or raises. *)
Definition result (A : Type) : Type := (exn + A)%type.

Definition raise {A} (e : exn) : result A := inl e.

#[global] Instance result_ret : MRet result := λ A x, inr x.
#[global] Instance result_bind : MBind result := λ A B f m,
  match m with inl e => inl e | inr x => f x end.

Definition is_FileNotFoundError (e : exn) : bool :=
  match e with FileNotFoundError _ _ => true | _ => false end.

(** ** The interpreter's tables

    The Unicode database and the built-ins the script calls are not part
    of the repository; they are parameters of the development. *)

Class Runtime := {
  (** [str.isspace], which is also the class [\s] of [re]. *)
  isspace : char → bool;
  (** [str.isalnum]: the class [\w] of [re] without the underscore. *)
  isalnum : char → bool;
  (** [str.lower]. *)
  lower : pystr → pystr;
  (** [int(s)]; [None] stands for [ValueError]. *)
  int_of_str : pystr → option Z;
  (** [str(v)] for a value that is not a [str]. *)
  repr : pyval → pystr
}.

End Py.
Import Py.

(** ** CONFIG *)

Definition RETRY_COUNT : nat := 3.
(** Sleep durations are in milliseconds. *)
Definition RETRY_SLEEP_SEC : N := 1500.
Definition RATE_LIMIT_SLEEP : N := 2000.
Definition THROTTLE_BETWEEN_CALLS : N := 250.

Definition KJV_BOOKS_IN_ORDER : list pystr := lit <$> [
  "Genesis";"Exodus";"Leviticus";"Numbers";"Deuteronomy";
  "Joshua";"Judges";"Ruth";"1 Samuel";"2 Samuel";
  "1 Kings";"2 Kings";"1 Chronicles";"2 Chronicles";"Ezra";
  "Nehemiah";"Esther";"Job";"Psalms";"Proverbs";
  "Ecclesiastes";"Song of Solomon";"Isaiah";"Jeremiah";"Lamentations";
  "Ezekiel";"Daniel";"Hosea";"Joel";"Amos";
  "Obadiah";"Jonah";"Micah";"Nahum";"Habakkuk";
  "Zephaniah";"Haggai";"Zechariah";"Malachi";
  "Matthew";"Mark";"Luke";"John";"Acts";
  "Romans";"1 Corinthians";"2 Corinthians";"Galatians";"Ephesians";
  "Philippians";"Colossians";"1 Thessalonians";"2 Thessalonians";"1 Timothy";
  "2 Timothy";"Titus";"Philemon";"Hebrews";"James";
  "1 Peter";"2 Peter";"1 John";"2 John";"3 John";
  "Jude";"Revelation"
]%string.

(** ** Text normalisation *)

Section Normalizer.
Context `{Runtime}.

(** [SPACE_RX.sub(" ", s)] with [SPACE_RX = \s+]: scanning from the left,
    every maximal run of whitespace becomes one space.  [in_run] says
    that the previous character belonged to a run already replaced. *)
Fixpoint space_sub_from (in_run : bool) (s : pystr) : pystr :=
  match s with
  | [] => []
  | c :: t =>
      if isspace c
      then (if in_run then space_sub_from true t
            else 32%N :: space_sub_from true t)
      else c :: space_sub_from false t
  end.

Definition SPACE_RX_sub (s : pystr) : pystr := space_sub_from false s.

(** [\w]: alphanumeric or underscore. *)
Definition word_char (c : char) : bool := isalnum c || (c =? 95)%N.

(** One character matches [PUNCT_RX = [^\w\s]]. *)
Definition PUNCT_RX_match (c : char) : bool := negb (word_char c || isspace c).

(** [PUNCT_RX.sub("", s)]: every matching character is deleted. *)
Fixpoint PUNCT_RX_sub (s : pystr) : pystr :=
  match s with
  | [] => []
  | c :: t => if PUNCT_RX_match c then PUNCT_RX_sub t else c :: PUNCT_RX_sub t
  end.

(** [s.lstrip()], [s.rstrip()], [s.strip()] *)
Fixpoint lstrip (s : pystr) : pystr :=
  match s with
  | [] => []
  | c :: t => if isspace c then lstrip t else s
  end.

Definition rstrip (s : pystr) : pystr := reverse (lstrip (reverse s)).

Definition strip (s : pystr) : pystr := rstrip (lstrip s).

Definition norm_text (s : pystr) : pystr :=
  let s := (replace 8216 39 (replace 8217 39 (replace 8221 34 (replace 8220 34 s))))%N in
  strip (SPACE_RX_sub s).

Definition norm_text_strict (s : pystr) : pystr :=
  let s := norm_text s in
  let s := PUNCT_RX_sub s in
  lower (strip (SPACE_RX_sub s)).

End Normalizer.

(** ** Diff engine *)

Section DiffEngine.
Context `{Runtime}.

(** The body of [for i in range(n)]: [k] iterations are left and the
    loop variable is [i].  [None] means the loop ran to its end.  An
    index out of range cannot occur for [i + k <= n]; Python would raise
    [IndexError] there. *)
Fixpoint first_diff_loop (local ref : list pystr) (k i : nat)
  : option (Z * pystr * pystr) :=
  match k with
  | O => None
  | S k' =>
      match local !! i, ref !! i with
      | Some l, Some r =>
          if decide (norm_text_strict l = norm_text_strict r)
          then first_diff_loop local ref k' (S i)
          else Some (Z.of_nat i + 1, l, r)
      | _, _ => None
      end
  end.

Definition first_diff (local ref : list pystr) : Z * pystr * pystr :=
  let n := Nat.min (length local) (length ref) in
  match first_diff_loop local ref n 0 with
  | Some d => d
  | None =>
      if decide (length local ≠ length ref)
      then (Z.of_nat n + 1,
            lit "[local length=" ++ str_of_Z (Z.of_nat (length local)) ++ lit "]",
            lit "[ref length=" ++ str_of_Z (Z.of_nat (length ref)) ++ lit "]")
      else (-1, [], [])
  end.

End DiffEngine.

(** ** Python values at run time *)

Section Values.
Context `{Runtime}.

(** [str(v)] *)
Definition py_str (v : pyval) : pystr :=
  match v with PStr s => s | _ => repr v end.

(** Truth value of [v], as tested by [if v] and [v and ...]. *)
Definition truthy (v : pyval) : bool :=
  match v with
  | PNone => false
  | PBool b => b
  | PInt z => negb (z =? 0)
  | PFloat bits => negb ((bits =? 0) || (bits =? 2 ^ 63))
  | PStr s => negb (bool_decide (s = []))
  | PList l => negb (bool_decide (length l = 0%nat))
  | PDict d => negb (bool_decide (length d = 0%nat))
  end.

Definition isinstance_dict (v : pyval) : bool :=
  match v with PDict _ => true | _ => false end.

(** [d.get(key, default)] on a [dict]. *)
Fixpoint dict_get (d : list (pystr * pyval)) (key : pystr) (default : pyval) : pyval :=
  match d with
  | [] => default
  | (k, v) :: d' => if decide (k = key) then v else dict_get d' key default
  end.

(** [v.get(key, default)]: only a [dict] has the attribute. *)
Definition get (v : pyval) (key : pystr) (default : pyval) : result pyval :=
  match v with
  | PDict d => inr (dict_get d key default)
  | _ => inl AttributeError
  end.

(** [v[0]] *)
Definition index0 (v : pyval) : result pyval :=
  match v with
  | PList (x :: _) => inr x
  | PList [] => inl IndexError
  | PStr (c :: _) => inr (PStr [c])
  | PStr [] => inl IndexError
  | PDict _ => inl KeyError
  | _ => inl TypeError
  end.

(** The items [for x in v] runs through. *)
Definition iterate (v : pyval) : result (list pyval) :=
  match v with
  | PList l => inr l
  | PStr s => inr ((λ c, PStr [c]) <$> s)
  | PDict d => inr ((λ kv, PStr kv.1) <$> d)
  | _ => inl TypeError
  end.

(** A list comprehension [[f(x) for x in xs]] whose body may raise: the
    first exception ends it. *)
Fixpoint comprehension {A B} (f : A → result B) (xs : list A) : result (list B) :=
  match xs with
  | [] => mret []
  | x :: xs' => y ← f x; ys ← comprehension f xs'; mret (y :: ys)
  end.

(** [str(v.get("text", ""))] *)
Definition text_of (v : pyval) : result pystr :=
  t ← get v (lit "text") (PStr []); mret (py_str t).

End Values.

(** ** The corpus on disk *)

(** What [open] followed by [json.load] does on a regular file. *)
Inductive file :=
| Unreadable (msg : pystr)
| Malformed (msg : pystr)
| Loaded (data : pyval).

Inductive node :=
| File (f : file)
| Dir (children : list (pystr * node)).

(** The entries of [REPO_ROOT]. *)
Definition tree := list (pystr * node).

Fixpoint entry (name : pystr) (t : tree) : option node :=
  match t with
  | [] => None
  | (n, x) :: t' => if decide (n = name) then Some x else entry name t'
  end.

(** [os.listdir(REPO_ROOT)] *)
Definition listdir_root (root : tree) : list pystr := fst <$> root.

(** [os.path.isdir(os.path.join(REPO_ROOT, d))] *)
Definition isdir (root : tree) (d : pystr) : bool :=
  match entry d root with Some (Dir _) => true | _ => false end.

(** [os.listdir(os.path.join(REPO_ROOT, book))] *)
Definition listdir (root : tree) (book : pystr) : list pystr :=
  match entry book root with
  | Some (Dir children) => fst <$> children
  | _ => []
  end.

(** The node at [os.path.join(REPO_ROOT, book, name)], when it exists. *)
Definition at_path (root : tree) (book name : pystr) : option node :=
  match entry book root with
  | Some (Dir children) => entry name children
  | _ => None
  end.

(** [with open(path) as f: data = json.load(f)] *)
Definition load (n : node) : result pyval :=
  match n with
  | Dir _ => inl (OSError (lit "Is a directory"))
  | File (Unreadable msg) => inl (OSError msg)
  | File (Malformed msg) => inl (JSONDecodeError msg)
  | File (Loaded data) => inr data
  end.

Section Reader.
Context `{Runtime}.
Variable root : tree.

Definition read_local_chapter (book : pystr) (chapter_num : Z)
  : result (list pystr * pyval) :=
  let path := fmt02 chapter_num ++ lit ".json" in
  found ← match at_path root book path with
          | Some n => mret n
          | None =>
              let alt_path := str_of_Z chapter_num ++ lit ".json" in
              match at_path root book alt_path with
              | Some n => mret n
              | None => raise (FileNotFoundError book chapter_num)
              end
          end;
  data ← load found;
  verses ← get data (lit "verses") (PList []);
  objects ← (if truthy verses
             then v0 ← index0 verses; mret (isinstance_dict v0)
             else mret false);
  vs ← iterate verses;
  local_texts ← (if objects : bool then comprehension text_of vs
                 else mret (py_str <$> vs));
  mret (local_texts, data).

End Reader.

(** ** The outside world *)

(** What [requests.get] does for one request. *)
Inductive http_reply :=
| Raises (e : exn)
| Response (status_code : Z) (json : result pyval).

(** The reply to the [n]-th request of the run, asked for [book] and
    [chapter_num]. *)
Definition network := nat → pystr → Z → http_reply.

(** A line of console output. *)
Inductive line :=
| NoBooksFound
| FoundBooks (n : nat)
| NoChaptersFound (book : pystr)
| BookHeader (book : pystr) (n : nat)
| MissingLine (book : pystr) (ch : Z)
| ReadErrorLine (book : pystr) (ch : Z) (e : exn)
| FetchErrorLine (book : pystr) (ch : Z) (e : exn)
| MatchLine (book : pystr) (ch : Z)
| MismatchLine (book : pystr) (ch : Z) (vnum : Z)
| Summary (totals matched mismatched missing errors : nat) (csv_written : bool).

(** The rows of a CSV file, each a list of cells. *)
Definition csv := list (list pystr).

Record world := World {
  requests : nat;                (* requests issued so far *)
  slept : list N;                (* every [time.sleep], oldest first *)
  printed : list line;           (* console, oldest first *)
  csv_out : option csv           (* the file at [CSV_OUT], if any *)
}.

Definition IO (A : Type) : Type := world → A * world.

#[global] Instance IO_ret : MRet IO := λ A x w, (x, w).
#[global] Instance IO_bind : MBind IO := λ A B f m w,
  let '(x, w') := m w in f x w'.

Definition sleep (ms : N) : IO () := λ w,
  ((), World (requests w) (slept w ++ [ms]) (printed w) (csv_out w)).

Definition print (l : line) : IO () := λ w,
  ((), World (requests w) (slept w) (printed w ++ [l]) (csv_out w)).

(** A lone surrogate, U+D800 to U+DFFF, which [json.load] yields from
    an escape such as "\ud800": the one kind of character that the
    UTF-8 encoder of the report file refuses. *)
Definition is_surrogate (c : char) : bool := ((55296 <=? c) && (c <=? 57343))%N.

(** [s.encode("utf-8")] succeeds. *)
Definition encodable (s : pystr) : bool := forallb (λ c, negb (is_surrogate c)) s.

(** Writing the row to the file succeeds. *)
Definition row_encodable (r : list pystr) : bool := forallb encodable r.

(** The writes of [writeheader] and [writerows], one row at a time into
    the freshly truncated file: the first row that cannot be encoded
    raises, the rows before it stay in the file. *)
Fixpoint write_rows (rows : csv) (written : csv) : result () * csv :=
  match rows with
  | [] => (inr (), written)
  | r :: rest =>
      if row_encodable r then write_rows rest (written ++ [r])
      else (raise UnicodeEncodeError, written)
  end.

(** [with open(CSV_OUT, "w", newline="", encoding="utf-8") as f] and the
    writes inside: whatever the file held is gone.  Opening the file is
    taken to succeed. *)
Definition write_csv (rows : csv) : IO (result ()) := λ w,
  let '(r, written) := write_rows rows [] in
  (r, World (requests w) (slept w) (printed w) (Some written)).

Definition requests_get (net : network) (book : pystr) (chapter_num : Z)
  : IO http_reply := λ w,
  (net (requests w) book chapter_num,
   World (S (requests w)) (slept w) (printed w) (csv_out w)).

(** ** Reference fetcher *)

Section Fetcher.
Context `{Runtime}.
Variable net : network.

(** [r.raise_for_status()] *)
Definition raise_for_status (status_code : Z) : result () :=
  if (400 <=? status_code) && (status_code <? 600)
  then raise (HTTPError status_code) else mret ().

(** The body of [try] once the reply is not a 429. *)
Definition parse_reply (status_code : Z) (json : result pyval) : result (list pystr) :=
  _ ← raise_for_status status_code;
  js ← json;
  verses ← get js (lit "verses") (PList []);
  vs ← iterate verses;
  comprehension (λ v, t ← text_of v; mret (norm_text t)) vs.

(** One pass through the [try] statement, given the reply: the verse
    texts returned, or [inl None] for a 429 (which leaves [last_err]
    alone), or [inl (Some e)] for the exception caught. *)
Definition attempt (r : http_reply) : option exn + list pystr :=
  match r with
  | Raises e => inl (Some e)
  | Response status_code json =>
      if status_code =? 429 then inl None
      else match parse_reply status_code json with
           | inl e => inl (Some e)
           | inr texts => inr texts
           end
  end.

(** [for _ in range(k)] with the current [last_err]. *)
Fixpoint fetch_loop (book : pystr) (chapter_num : Z) (k : nat) (last_err : option exn)
  : IO (result (list pystr)) :=
  match k with
  | O => mret (raise (RuntimeError book chapter_num last_err))
  | S k' =>
      r ← requests_get net book chapter_num;
      match attempt r with
      | inr texts => mret (inr texts)
      | inl None =>
          _ ← sleep RATE_LIMIT_SLEEP;
          fetch_loop book chapter_num k' last_err
      | inl (Some e) =>
          _ ← sleep RETRY_SLEEP_SEC;
          fetch_loop book chapter_num k' (Some e)
      end
  end.

Definition fetch_ref_chapter (book : pystr) (chapter_num : Z)
  : IO (result (list pystr)) :=
  fetch_loop book chapter_num RETRY_COUNT None.

End Fetcher.

(** ** Corpus discovery *)

Section Discoverer.
Context `{Runtime}.
Variable root : tree.

Definition discover_books : list pystr :=
  let present : gset pystr :=
    list_to_set (filter (λ d, isdir root d = true) (listdir_root root)) in
  filter (λ b, b ∈ present) KJV_BOOKS_IN_ORDER.

(** The loop over [os.listdir(book_dir)], appending to [nums]. *)
Fixpoint collect_nums (names : list pystr) (nums : list Z) : list Z :=
  match names with
  | [] => nums
  | name :: rest =>
      if endswith name (lit ".json")
      then let stem := take (length name - 5) name in
           match int_of_str stem with
           | Some n => collect_nums rest (nums ++ [n])
           | None => collect_nums rest nums
           end
      else collect_nums rest nums
  end.

(** [sorted(nums)] *)
Definition sorted (nums : list Z) : list Z := merge_sort Z.le nums.

Definition discover_chapters (book : pystr) : list Z :=
  sorted (collect_nums (listdir root book) []).

End Discoverer.

(** ** The run *)

(** One element of [mismatches]. *)
Record mismatch := Mismatch {
  book : pystr;
  chapter : Z;
  first_diff_verse : Z;
  local_snippet : pystr;
  ref_snippet : pystr;
  local_verse_count : nat;
  ref_verse_count : nat
}.

(** The local variables of [main] that the loops update. *)
Record locals := Locals {
  mismatches : list mismatch;
  totals : nat;
  matched : nat;
  missing : nat;
  errors : nat
}.

Definition fieldnames : list pystr := lit <$> [
  "book";"chapter";"first_diff_verse";
  "local_verse_count";"ref_verse_count";
  "local_snippet";"ref_snippet"
]%string.

(** The cells [csv.DictWriter] writes for one dictionary, in the order
    of [fieldnames]. *)
Definition csv_row (m : mismatch) : list pystr :=
  [ book m; str_of_Z (chapter m); str_of_Z (first_diff_verse m);
    str_of_Z (Z.of_nat (local_verse_count m));
    str_of_Z (Z.of_nat (ref_verse_count m));
    local_snippet m; ref_snippet m ].

Section Main.
Context `{Runtime}.
Variable root : tree.
Variable net : network.

(** The body of [for ch in chapters]. *)
Definition chapter_body (book : pystr) (ch : Z) (l : locals) : IO locals :=
  let l := Locals (mismatches l) (S (totals l)) (matched l) (missing l) (errors l) in
  match read_local_chapter root book ch with
  | inl e =>
      if is_FileNotFoundError e
      then _ ← print (MissingLine book ch);
           mret (Locals (mismatches l) (totals l) (matched l) (S (missing l)) (errors l))
      else _ ← print (ReadErrorLine book ch e);
           mret (Locals (mismatches l) (totals l) (matched l) (missing l) (S (errors l)))
  | inr (local_verses, _) =>
      r ← fetch_ref_chapter net book ch;
      match r with
      | inl e =>
          _ ← print (FetchErrorLine book ch e);
          mret (Locals (mismatches l) (totals l) (matched l) (missing l) (S (errors l)))
      | inr ref_verses =>
          _ ← sleep THROTTLE_BETWEEN_CALLS;
          let '(vnum, lv, rv) := first_diff local_verses ref_verses in
          if vnum =? -1
          then _ ← print (MatchLine book ch);
               mret (Locals (mismatches l) (totals l) (S (matched l)) (missing l) (errors l))
          else _ ← print (MismatchLine book ch vnum);
               mret (Locals
                       (mismatches l ++
                          [Mismatch book ch vnum (slice_to 200 lv) (slice_to 200 rv)
                             (length local_verses) (length ref_verses)])
                       (totals l) (matched l) (missing l) (errors l))
      end
  end.

Fixpoint for_chapters (book : pystr) (chapters : list Z) (l : locals) : IO locals :=
  match chapters with
  | [] => mret l
  | ch :: rest => l' ← chapter_body book ch l; for_chapters book rest l'
  end.

(** The body of [for book in books]. *)
Definition book_body (book : pystr) (l : locals) : IO locals :=
  let chapters := discover_chapters root book in
  if bool_decide (chapters = [])
  then _ ← print (NoChaptersFound book); mret l
  else _ ← print (BookHeader book (length chapters));
       for_chapters book chapters l.

Fixpoint for_books (books : list pystr) (l : locals) : IO locals :=
  match books with
  | [] => mret l
  | book :: rest => l' ← book_body book l; for_books rest l'
  end.

(** [main] returns normally, or raises what the report write raised. *)
Definition main : IO (result ()) :=
  let books := discover_books root in
  if bool_decide (books = [])
  then _ ← print NoBooksFound; mret (inr ())
  else
    _ ← print (FoundBooks (length books));
    l ← for_books books (Locals [] 0 0 0 0);
    r ← (if bool_decide (mismatches l = []) then mret (inr ())
         else write_csv (fieldnames :: (csv_row <$> mismatches l)));
    match r with
    | inl e => mret (inl e)
    | inr _ =>
        _ ← print (Summary (totals l) (matched l) (length (mismatches l))
                     (missing l) (errors l) (negb (bool_decide (mismatches l = []))));
        mret (inr ())
    end.

End Main.

(** ** A runtime for ASCII text

    [ascii_runtime] is CPython's behaviour cut down to what can be
    written out here: [isspace] is complete; [isalnum] and [lower] know
    the ASCII letters and digits; [int] reads ASCII decimal literals;
    [repr] is that of the parsed JSON values, with characters above
    U+007F in a string taken to be printable.  It is used to run the
    functions above on concrete inputs. *)

Module Ascii.

Definition between (lo hi c : N) : bool := ((lo <=? c) && (c <=? hi))%N.

Definition isspace (c : char) : bool :=
  (between 9 13 c || between 28 32 c || (c =? 133) || (c =? 160)
   || (c =? 5760) || between 8192 8202 c || (c =? 8232) || (c =? 8233)
   || (c =? 8239) || (c =? 8287) || (c =? 12288))%N.

Definition isdigit (c : char) : bool := between 48 57 c.

Definition isalnum (c : char) : bool :=
  isdigit c || between 65 90 c || between 97 122 c.

Definition lower (s : pystr) : pystr :=
  (λ c, if between 65 90 c then (c + 32)%N else c) <$> s.

(** Digits with single underscores between them, then whitespace. *)
Fixpoint digits (s : pystr) (acc : Z) (after_digit : bool) : option Z :=
  match s with
  | [] => if after_digit then Some acc else None
  | c :: t =>
      if isdigit c then digits t (10 * acc + (Z.of_N c - 48)) true
      else if (c =? 95)%N && after_digit
      then match t with [] => None | _ => digits t acc false end
      else if isspace c && after_digit && forallb isspace t then Some acc
      else None
  end.

Fixpoint skip_space (s : pystr) : pystr :=
  match s with
  | c :: t => if isspace c then skip_space t else s
  | [] => []
  end.

Definition int_of_str (s : pystr) : option Z :=
  match skip_space s with
  | 43%N :: t => digits t 0 false
  | 45%N :: t => Z.opp <$> digits t 0 false
  | t => digits t 0 false
  end.

(** *** [repr] of a [str]

    Single quotes, unless the text holds a single quote and no double
    quote; the quote in use, the backslash, tab, newline and carriage
    return are escaped with a backslash, the other control characters
    as [\xNN].  Characters above U+007F are left as they are, which is
    what CPython does with the printable ones. *)

Definition hex_digit (n : N) : char :=
  (if n <? 10 then 48 + n else 87 + n)%N.

Definition escape_char (quote c : char) : pystr :=
  (if (c =? quote) || (c =? 92) then [92; c]
   else if c =? 9 then [92; 116]
   else if c =? 10 then [92; 110]
   else if c =? 13 then [92; 114]
   else if (c <? 32) || (c =? 127) then [92; 120; hex_digit (c / 16); hex_digit (c mod 16)]
   else [c])%N.

Definition repr_str (s : pystr) : pystr :=
  let quote : char :=
    if bool_decide (39%N ∈ s) && negb (bool_decide (34%N ∈ s)) then 34%N else 39%N in
  quote :: (s ≫= escape_char quote) ++ [quote].

(** *** [repr] of a [float]

    The value of a finite binary64 is [m * 2 ^ e].  Its text is the
    shortest run of decimal digits that reads back as the same float,
    the nearest to the value among those, laid out as [repr] does. *)

Definition float_sign (bits : Z) : bool := 2 ^ 63 <=? bits.
Definition float_exponent (bits : Z) : Z := (bits / 2 ^ 52) mod 2 ^ 11.
Definition float_fraction (bits : Z) : Z := bits mod 2 ^ 52.

(** Mantissa and binary exponent of a finite, non-zero float. *)
Definition float_decompose (bits : Z) : Z * Z :=
  let ex := float_exponent bits in
  let fr := float_fraction bits in
  if ex =? 0 then (fr, -1074) else (2 ^ 52 + fr, ex - 1075).

(** A rational [p / q] with [q > 0]. *)
Definition ratio : Type := Z * Z.
Definition ratio_le (a b : ratio) : bool := a.1 * b.2 <=? b.1 * a.2.
Definition ratio_lt (a b : ratio) : bool := a.1 * b.2 <? b.1 * a.2.
Definition ratio_of_scaled (m e : Z) : ratio :=
  if 0 <=? e then (m * 2 ^ e, 1) else (m, 2 ^ (- e)).
Definition ratio_dist (a b : ratio) : ratio := (Z.abs (a.1 * b.2 - b.1 * a.2), a.2 * b.2).

(** The reals that read back as the float [m * 2 ^ e]: from half way to
    the float below to half way to the float above, the ends included
    when [m] is even. *)
Definition reads_back (m e : Z) (d : ratio) : bool :=
  let below_is_closer := (m =? 2 ^ 52) && negb (e =? -1074) in
  let lo := if below_is_closer then ratio_of_scaled (4 * m - 1) (e - 2)
            else ratio_of_scaled (2 * m - 1) (e - 1) in
  let hi := ratio_of_scaled (2 * m + 1) (e - 1) in
  if Z.even m then ratio_le lo d && ratio_le d hi
  else ratio_lt lo d && ratio_lt d hi.

(** [10 ^ k] as a rational, for any integer [k]. *)
Definition pow10 (k : Z) : ratio := if 0 <=? k then (10 ^ k, 1) else (1, 10 ^ (- k)).
Definition ratio_mul (a b : ratio) : ratio := (a.1 * b.1, a.2 * b.2).

(** The least [k] with [v < 10 ^ k], searched upwards from [k]. *)
Fixpoint decimal_point (fuel : nat) (v : ratio) (k : Z) : Z :=
  match fuel with
  | O => k
  | S fuel' => if ratio_lt v (pow10 k) then k else decimal_point fuel' v (k + 1)
  end.

(** The shortest digits: with [n] digits, try the two multiples of
    [10 ^ (k - n)] around [v]; take the nearer one that reads back, the
    even one on a tie. *)
Fixpoint shortest (fuel : nat) (m e : Z) (v : ratio) (k : Z) (n : Z) : Z * Z :=
  match fuel with
  | O => (0, k)
  | S fuel' =>
      let unit := pow10 (k - n) in
      let c := (v.1 * unit.2) / (v.2 * unit.1) in
      let d1 := ratio_mul (c, 1) unit in
      let d2 := ratio_mul (c + 1, 1) unit in
      let ok1 := reads_back m e d1 in
      let ok2 := reads_back m e d2 in
      let pick1 := (c, k - n) in
      let pick2 := (c + 1, k - n) in
      if ok1 && ok2 then
        (if ratio_lt (ratio_dist d1 v) (ratio_dist d2 v) then pick1
         else if ratio_lt (ratio_dist d2 v) (ratio_dist d1 v) then pick2
         else if Z.even c then pick1 else pick2)
      else if ok1 then pick1
      else if ok2 then pick2
      else shortest fuel' m e v k (n + 1)
  end.

(** Trailing zeros of the digits go into the exponent. *)
Fixpoint strip_zeros (fuel : nat) (c x : Z) : Z * Z :=
  match fuel with
  | O => (c, x)
  | S fuel' => if (c mod 10 =? 0) && negb (c =? 0) then strip_zeros fuel' (c / 10) (x + 1)
               else (c, x)
  end.

Definition zeros (n : Z) : pystr := replicate (Z.to_nat n) 48%N.

(** The layout of [repr]: digits [ds], decimal point after the first
    [decpt] of them; exponent form when [decpt <= -4] or [decpt > 16]. *)
Definition float_layout (ds : pystr) (decpt : Z) : pystr :=
  let nd := Z.of_nat (length ds) in
  if (decpt <=? -4) || (16 <? decpt) then
    let x := decpt - 1 in
    let xs := str_of_Z (Z.abs x) in
    take 1 ds ++ (if 1 <? nd then 46%N :: drop 1 ds else [])
      ++ [101%N; if x <? 0 then 45%N else 43%N]
      ++ (if (length xs <? 2)%nat then 48%N :: xs else xs)
  else if decpt <=? 0 then lit "0." ++ zeros (- decpt) ++ ds
  else if nd <=? decpt then ds ++ zeros (decpt - nd) ++ lit ".0"
  else take (Z.to_nat decpt) ds ++ 46%N :: drop (Z.to_nat decpt) ds.

Definition float_repr (bits : Z) : pystr :=
  let sign : pystr := if float_sign bits then [45%N] else [] in
  if float_exponent bits =? 2047 then
    (if float_fraction bits =? 0 then sign ++ lit "inf" else lit "nan")
  else
    let '(m, e) := float_decompose bits in
    if m =? 0 then sign ++ lit "0.0"
    else
      let v := ratio_of_scaled m e in
      let k := decimal_point 700 v (-330) in
      let '(c, x) := shortest 20 m e v k 1 in
      let '(c, x) := strip_zeros 20 c x in
      let ds := str_of_Z c in
      sign ++ float_layout ds (Z.of_nat (length ds) + x).

(** *** [repr] of a parsed JSON value *)

Fixpoint join (sep : pystr) (parts : list pystr) : pystr :=
  match parts with
  | [] => []
  | [p] => p
  | p :: rest => p ++ sep ++ join sep rest
  end.

Fixpoint repr (v : pyval) : pystr :=
  match v with
  | PNone => lit "None"
  | PBool true => lit "True"
  | PBool false => lit "False"
  | PInt z => str_of_Z z
  | PFloat bits => float_repr bits
  | PStr s => repr_str s
  | PList l => lit "[" ++ join (lit ", ") (map repr l) ++ lit "]"
  | PDict d =>
      lit "{"
      ++ join (lit ", ") (map (λ kv, repr_str kv.1 ++ lit ": " ++ repr kv.2) d)
      ++ lit "}"
  end.

End Ascii.

Definition ascii_runtime : Runtime := {|
  Py.isspace := Ascii.isspace;
  Py.isalnum := Ascii.isalnum;
  Py.lower := Ascii.lower;
  Py.int_of_str := Ascii.int_of_str;
  Py.repr := Ascii.repr
|}.

(** ** Sample data *)

Module Sample.

Definition verses_object (texts : list pystr) : pyval :=
  PDict [(lit "verses", PList ((λ t, PDict [(lit "text", PStr t)]) <$> texts))].

Definition genesis_1_1 : pystr := lit "In the beginning God created the heaven and the earth.".

(** A fresh run: nothing requested, slept, printed or written. *)
Definition w0 : world := World 0 [] [] None.

(** A service that answers 429 to the first [k] requests and then
    serves one verse, with surrounding whitespace. *)
Definition rate_limited_first (k : nat) : network := λ n _ _,
  if (n <? k)%nat then Response 429 (inl (JSONDecodeError []))
  else Response 200 (inr (verses_object [lit " " ++ genesis_1_1 ++ [10%N]])).

(** A service that is down for one request in the middle of two 429s. *)
Definition flaky : network := λ n _ _,
  match n with
  | 1%nat => Response 503 (inl (JSONDecodeError []))
  | _ => Response 429 (inl (JSONDecodeError []))
  end.

(** A corpus whose only chapter has leading blanks in its verse. *)
Definition padded_verse : pystr := lit "  In the beginning".

Definition blank_led_corpus : tree :=
  [(lit "Genesis", Dir [(lit "01.json", File (Loaded (verses_object [padded_verse])))])].

(** A corpus root in file-system order: a lowercase look-alike, a
    regular file with a book's name, two books out of order, and a
    directory that is no book. *)
Definition shuffled_root : tree :=
  [(lit "genesis", Dir []);
   (lit "Exodus", File (Loaded PNone));
   (lit "Revelation", Dir []);
   (lit "docs", Dir []);
   (lit "Genesis", Dir [])].

(** A book directory holding chapter 1 under both of its names, next
    to entries that are no chapters. *)
Definition twice_named_root : tree :=
  [(lit "Genesis",
    Dir [(lit "1.json", File (Loaded (verses_object [genesis_1_1])));
         (lit "README.md", File (Unreadable []));
         (lit "01.json", File (Loaded (verses_object [genesis_1_1])));
         (lit "index.json", File (Loaded PNone))])].

(** A book directory with chapters 10, 2 and 1 listed in that order. *)
Definition three_chapter_root : tree :=
  [(lit "Genesis",
    Dir [(lit "10.json", File (Loaded (verses_object [genesis_1_1])));
         (lit "02.json", File (Loaded (verses_object [genesis_1_1])));
         (lit "notes.txt", File (Unreadable []));
         (lit "01.json", File (Loaded (verses_object [genesis_1_1])))])].

(** A book with one chapter of each fate: chapter 1 matches, chapter 2
    is not JSON, chapter 4 is listed as "+4.json" and so found under
    neither of its two names, chapter 5 differs in wording, and the
    service fails on chapter 6. *)
Definition mixed_root : tree :=
  [(lit "Genesis",
    Dir [(lit "01.json", File (Loaded (verses_object [genesis_1_1])));
         (lit "02.json", File (Malformed (lit "Expecting value")));
         (lit "+4.json", File (Loaded (verses_object [genesis_1_1])));
         (lit "05.json", File (Loaded (verses_object [lit "In the end"; lit "Amen"])));
         (lit "06.json", File (Loaded (verses_object [genesis_1_1])))])].

Definition mixed_net : network := λ _ _ ch,
  if ch =? 6 then Response 500 (inl (JSONDecodeError []))
  else Response 200 (inr (verses_object [genesis_1_1 ++ [10%N]])).

(** Chapter files of unusual shape: no "verses" key, an empty list,
    an object first and a string after it, a string first and an object
    after it. *)
Definition odd_shapes_root : tree :=
  [(lit "Genesis",
    Dir [(lit "01.json", File (Loaded (PDict [(lit "title", PStr (lit "Creation"))])));
         (lit "02.json", File (Loaded (PDict [(lit "verses", PList [])])));
         (lit "03.json",
          File (Loaded (PDict [(lit "verses",
            PList [PDict [(lit "text", PStr (lit "a"))]; PStr (lit "b")])])));
         (lit "04.json",
          File (Loaded (PDict [(lit "verses",
            PList [PStr (lit "a"); PInt 7; PDict [(lit "number", PInt 3)]])])))])].

(** A chapter whose local verse holds a lone surrogate, as [json.load]
    returns it for the escape "\ud800". *)
Definition surrogate_root : tree :=
  [(lit "Genesis",
    Dir [(lit "01.json",
          File (Loaded (verses_object [[55296%N] ++ lit " light"])))])].

End Sample.

(** * Vocabulary of the statements *)

Section Vocabulary.
Context `{Runtime}.

(** Verses [i], ..., [i + k - 1] agree under strict normalisation. *)
Definition agree_on (local ref : list pystr) (i k : nat) : Prop :=
  ∀ j l r, (i ≤ j < i + k)%nat → local !! j = Some l → ref !! j = Some r →
    norm_text_strict l = norm_text_strict r.

(** Strict normalisation as the specification words it: Loose
    normalisation, removal of every character that is not a letter, a
    digit or whitespace, whitespace collapsing and trimming, lowercasing. *)
Definition strict_as_specified (s : pystr) : pystr :=
  lower (strip (SPACE_RX_sub
    (filter (λ c, isalnum c || isspace c) (norm_text s)))).

(** [a] and [b] are the same text once the characters satisfying
    [punct] are left out: they differ in punctuation only. *)
Definition differ_only_in (punct : char → bool) (a b : pystr) : Prop :=
  filter (λ c, negb (punct c)) a = filter (λ c, negb (punct c)) b.

(** Punctuation as the specification words it. *)
Definition specified_punct (c : char) : bool := negb (isalnum c || isspace c).

(** The facts about the Unicode tables that the normaliser relies on:
    U+0020 is whitespace, and the four curly quotes and their two ASCII
    replacements are neither word characters nor whitespace. *)
Record unicode_facts : Prop := {
  space_isspace : isspace 32%N = true;
  quotes_punct :
    ∀ c : char, c ∈ [8220; 8221; 8217; 8216; 34; 39]%N → PUNCT_RX_match c = true
}.

(** The sleep that follows a failed attempt. *)
Definition pause (o : option exn) : N :=
  match o with None => RATE_LIMIT_SLEEP | Some _ => RETRY_SLEEP_SEC end.

(** [last_err] after the failed attempts [errs], oldest first: a 429
    ([None]) leaves it as it was. *)
Definition last_recorded (last_err : option exn) (errs : list (option exn)) : option exn :=
  foldl (λ acc o, match o with Some e => Some e | None => acc end) last_err errs.

(** The world after the failed attempts [errs]. *)
Definition after_failures (w : world) (errs : list (option exn)) : world :=
  World (requests w + length errs) (slept w ++ (pause <$> errs)) (printed w) (csv_out w).

(** The requests issued from [w] on, for [book] and [ch], fail one
    after the other as [errs] says. *)
Definition fail_as (net : network) (book : pystr) (ch : Z) (w : world)
    (errs : list (option exn)) : Prop :=
  ∀ i o, errs !! i = Some o → attempt (net (requests w + i)%nat book ch) = inl o.

(** The four replacements at the head of [norm_text]. *)
Definition straight_quotes (s : pystr) : pystr :=
  (replace 8216 39 (replace 8217 39 (replace 8221 34 (replace 8220 34 s))))%N.

(** What the four replacements do to one character. *)
Definition straight_quote (c : char) : char :=
  (if c =? 8220 then 34 else if c =? 8221 then 34
   else if c =? 8217 then 39 else if c =? 8216 then 39 else c)%N.

(** The chapter number a directory entry stands for, if any: the name
    ends in ".json" and the rest parses as an integer. *)
Definition stem_number (name : pystr) : option Z :=
  if endswith name (lit ".json") then int_of_str (take (length name - 5) name)
  else None.

(** The ChapterRefs of a run, in the order the two loops of [main]
    reach them. *)
Definition chapter_refs (root : tree) : list (list N * Z) :=
  b ← discover_books root; (λ ch, (b, ch)) <$> discover_chapters root b.

(** The ChapterRef a console line reports on, for the five per-chapter
    status lines. *)
Definition chapter_of_line (l : line) : option (list N * Z) :=
  match l with
  | MissingLine b c | ReadErrorLine b c _ | FetchErrorLine b c _
  | MatchLine b c | MismatchLine b c _ => Some (b, c)
  | _ => None
  end.

(** The ChapterRefs processed, read off the console. *)
Definition processed (ls : list line) : list (list N * Z) := omap chapter_of_line ls.

(** The kinds of per-chapter status line. *)
Definition is_missing_line (l : line) : bool :=
  match l with MissingLine _ _ => true | _ => false end.
Definition is_error_line (l : line) : bool :=
  match l with ReadErrorLine _ _ _ | FetchErrorLine _ _ _ => true | _ => false end.
Definition is_match_line (l : line) : bool :=
  match l with MatchLine _ _ => true | _ => false end.
Definition is_mismatch_line (l : line) : bool :=
  match l with MismatchLine _ _ _ => true | _ => false end.

(** How many of the lines [ls] satisfy [p]. *)
Definition count (p : line → bool) (ls : list line) : nat :=
  length (filter (λ l, p l) ls).



(** The initial values of the locals of [main]. *)
Definition no_locals : locals := Locals [] 0 0 0 0.

(** The two loops of [main], run from [w] once discovery has succeeded. *)
Definition scan (root : tree) (net : network) (w : world) : locals * world :=
  for_books root net (discover_books root) no_locals
    (print (FoundBooks (length (discover_books root))) w).2.

(** What [main] does after the loops: the report, then the summary
    unless the report write raised. *)
Definition finish (lw : locals * world) : result () * world :=
  let l := lw.1 in
  let w := lw.2 in
  let summary :=
    Summary (totals l) (matched l) (length (mismatches l)) (missing l) (errors l)
      (negb (bool_decide (mismatches l = []))) in
  if bool_decide (mismatches l = [])
  then (inr (), World (requests w) (slept w) (printed w ++ [summary]) (csv_out w))
  else
    let rw := write_rows (fieldnames :: (csv_row <$> mismatches l)) [] in
    match rw.1 with
    | inl e => (inl e, World (requests w) (slept w) (printed w) (Some rw.2))
    | inr _ =>
        (inr (), World (requests w) (slept w) (printed w ++ [summary]) (Some rw.2))
    end.


(** The node [read_local_chapter] opens: the zero-padded name if it
    exists, else the plain one. *)
Definition chapter_file (root : tree) (book : list N) (chapter_num : Z) : option node :=
  match at_path root book (fmt02 chapter_num ++ lit ".json") with
  | Some n => Some n
  | None => at_path root book (str_of_Z chapter_num ++ lit ".json")
  end.

(** Neither of the two file names of the chapter exists. *)
Definition absent (root : tree) (ref : list N * Z) : bool :=
  match chapter_file root ref.1 ref.2 with None => true | Some _ => false end.

(** The rows that reach the file: those before the first one that
    cannot be encoded. *)
Fixpoint writable (rows : csv) : csv :=
  match rows with
  | [] => []
  | r :: rest => if row_encodable r then r :: writable rest else []
  end.

(** The fate of one chapter, as the error taxonomy has it. *)
Inductive outcome :=
| Missing
| ReadError (e : exn)
| FetchError (e : exn)
| Matched
| Mismatched (m : mismatch).

(** What fetching [book] [ch] gives when [n] requests have been issued
    so far, and the number of requests issued afterwards.  The fetcher
    looks at nothing else in the world. *)
Definition fetch_outcome (net : network) (book : list N) (ch : Z) (n : nat)
  : result (list (list N)) * nat :=
  let rw := fetch_ref_chapter net book ch (World n [] [] None) in
  (rw.1, requests rw.2).

(** The outcome of one ChapterRef taken by itself: missing when neither
    file exists, a read error when the file cannot be read, a fetch
    error when the fetcher gives up, and else what [first_diff] says. *)
Definition verdict (root : tree) (net : network) (ref : list N * Z) (n : nat)
  : outcome * nat :=
  match read_local_chapter root ref.1 ref.2 with
  | inl e => (if is_FileNotFoundError e then Missing else ReadError e, n)
  | inr (local_verses, _) =>
      match fetch_outcome net ref.1 ref.2 n with
      | (inl e, n') => (FetchError e, n')
      | (inr ref_verses, n') =>
          let d := first_diff local_verses ref_verses in
          (if d.1.1 =? -1 then Matched
           else Mismatched
                  (Mismatch ref.1 ref.2 d.1.1 (slice_to 200 d.1.2) (slice_to 200 d.2)
                     (length local_verses) (length ref_verses)),
           n')
      end
  end.

(** The outcomes of the ChapterRefs [refs], one after the other; only
    the count of requests issued is handed from one to the next. *)
Fixpoint verdicts (root : tree) (net : network) (refs : list (list N * Z)) (n : nat)
  : list outcome * nat :=
  match refs with
  | [] => ([], n)
  | ref :: rest =>
      let on := verdict root net ref n in
      let osn := verdicts root net rest on.2 in
      (on.1 :: osn.1, osn.2)
  end.

(** The status line of a ChapterRef with the given outcome. *)
Definition status_line (ref : list N * Z) (o : outcome) : line :=
  match o with
  | Missing => MissingLine ref.1 ref.2
  | ReadError e => ReadErrorLine ref.1 ref.2 e
  | FetchError e => FetchErrorLine ref.1 ref.2 e
  | Matched => MatchLine ref.1 ref.2
  | Mismatched m => MismatchLine ref.1 ref.2 (first_diff_verse m)
  end.

Definition is_status_line (l : line) : bool :=
  match chapter_of_line l with Some _ => true | None => false end.

(** The per-chapter status lines among [ls], in order. *)
Definition status_lines (ls : list line) : list line :=
  filter (λ l, is_status_line l) ls.

Definition is_missing (o : outcome) : bool :=
  match o with Missing => true | _ => false end.
Definition is_error (o : outcome) : bool :=
  match o with ReadError _ | FetchError _ => true | _ => false end.
Definition is_matched (o : outcome) : bool :=
  match o with Matched => true | _ => false end.

(** How many of the outcomes [os] satisfy [p]. *)
Definition tally (p : outcome → bool) (os : list outcome) : nat :=
  length (filter (λ o, p o) os).

(** The mismatch records among the outcomes, in order. *)
Definition records (os : list outcome) : list mismatch :=
  omap (λ o, match o with Mismatched m => Some m | _ => None end) os.

(** The locals of [main] after a chapter with outcome [o]. *)
Definition bump (l : locals) (o : outcome) : locals :=
  match o with
  | Missing =>
      Locals (mismatches l) (S (totals l)) (matched l) (S (missing l)) (errors l)
  | ReadError _ | FetchError _ =>
      Locals (mismatches l) (S (totals l)) (matched l) (missing l) (S (errors l))
  | Matched =>
      Locals (mismatches l) (S (totals l)) (S (matched l)) (missing l) (errors l)
  | Mismatched m =>
      Locals (mismatches l ++ [m]) (S (totals l)) (matched l) (missing l) (errors l)
  end.

(** Where a single left-to-right pass that collapses and trims
    whitespace stands: nothing written yet, inside a word, or after a
    word with whitespace seen since. *)
Inductive gap := Start | InWord | Pending.

Definition after_space (g : gap) : gap :=
  match g with Start => Start | _ => Pending end.

Fixpoint squash (g : gap) (s : pystr) : pystr :=
  match s with
  | [] => []
  | c :: t =>
      if isspace c then squash (after_space g) t
      else match g with
           | Pending => 32%N :: c :: squash InWord t
           | _ => c :: squash InWord t
           end
  end.

(** Text after a character that is no whitespace: characters that are
    no whitespace, each preceded by at most one U+0020. *)
Inductive spaced_tail : list N → Prop :=
| spaced_nil : spaced_tail []
| spaced_char c t : isspace c = false → spaced_tail t → spaced_tail (c :: t)
| spaced_gap c t : isspace c = false → spaced_tail t → spaced_tail (32%N :: c :: t).

(** Text with whitespace collapsed and trimmed. *)
Inductive tidy : list N → Prop :=
| tidy_nil : tidy []
| tidy_word c t : isspace c = false → spaced_tail t → tidy (c :: t).

(** The four curly quotation marks [norm_text] replaces. *)
Definition curly (c : char) : Prop := c ∈ [8220; 8221; 8217; 8216]%N.

End Vocabulary.

(** * Properties *)

(** ** The diff engine *)

Section DiffEngineFacts.
Context `{Runtime}.

Implicit Types local ref : list pystr.

Lemma first_diff_loop_none local ref k i :
  agree_on local ref i k → first_diff_loop local ref k i = None.
Proof.
  revert i. induction k as [|k IH]; intros i Hag; [done|]. simpl.
  destruct (local !! i) as [l|] eqn:El; [|done].
  destruct (ref !! i) as [r|] eqn:Er; [|done].
  rewrite decide_True by (apply (Hag i); [lia|done..]).
  apply IH. intros j l' r' Hj. apply Hag. lia.
Qed.

Lemma first_diff_loop_some local ref k i j l r :
  (i ≤ j < i + k)%nat →
  local !! j = Some l → ref !! j = Some r →
  agree_on local ref i (j - i) →
  norm_text_strict l ≠ norm_text_strict r →
  first_diff_loop local ref k i = Some (Z.of_nat j + 1, l, r).
Proof.
  revert i. induction k as [|k IH]; intros i Hj Hl Hr Hag Hne; [lia|]. simpl.
  destruct (decide (i = j)) as [->|Hij].
  - rewrite Hl, Hr. by rewrite decide_False.
  - assert (is_Some (local !! i)) as [l' El].
    { apply lookup_lt_is_Some. apply lookup_lt_Some in Hl. lia. }
    assert (is_Some (ref !! i)) as [r' Er].
    { apply lookup_lt_is_Some. apply lookup_lt_Some in Hr. lia. }
    rewrite El, Er.
    rewrite decide_True by (apply (Hag i); [lia|done..]).
    apply IH; [lia|done..| |done].
    intros j' l'' r'' Hj'. apply Hag. lia.
Qed.

End DiffEngineFacts.

(** C1. [first_diff] compares the verses pairwise, up to the length of
    the shorter list, by equality of their strict normalisations.  (1) If
    verse [i] (0-based) is the first pair that differs, the outcome is
    the 1-based index [i + 1] with the two texts at that index, whatever
    the lengths are: content goes before length.  (2) If every common
    pair agrees and the lengths differ, the outcome is the common length
    plus one with the snippets "[local length=<len local>]" and
    "[ref length=<len ref>]".  (3) If every pair agrees and the lengths
    are equal, the outcome is the Match sentinel [(-1, "", "")]. *)
Theorem first_diff_correct `{Runtime} (local ref : list pystr) :
  let n := Nat.min (length local) (length ref) in
  (∀ i l r, local !! i = Some l → ref !! i = Some r →
     agree_on local ref 0 i →
     norm_text_strict l ≠ norm_text_strict r →
     first_diff local ref = (Z.of_nat i + 1, l, r))
  ∧ (agree_on local ref 0 n → length local ≠ length ref →
     first_diff local ref =
       (Z.of_nat n + 1,
        lit "[local length=" ++ str_of_Z (Z.of_nat (length local)) ++ lit "]",
        lit "[ref length=" ++ str_of_Z (Z.of_nat (length ref)) ++ lit "]"))
  ∧ (agree_on local ref 0 n → length local = length ref →
     first_diff local ref = (-1, [], [])).
Proof.
  intros n. unfold first_diff. fold n. split; [|split].
  - intros i l r Hl Hr Hag Hne.
    rewrite (first_diff_loop_some local ref n 0 i l r); try done.
    + pose proof (lookup_lt_Some _ _ _ Hl). pose proof (lookup_lt_Some _ _ _ Hr).
      unfold n. lia.
    + by rewrite Nat.sub_0_r.
  - intros Hag Hlen. rewrite first_diff_loop_none by done.
    by rewrite decide_True.
  - intros Hag Hlen. rewrite first_diff_loop_none by done.
    rewrite decide_False; [done|]. by intros ?.
Qed.

Section DiffEngineExamples.
#[local] Existing Instance ascii_runtime.

Lemma first_diff_correct_witness :
  first_diff [lit "In the beginning."; lit "x"] [lit "In the beginning"; lit "y"; lit "z"]
    = (2, lit "x", lit "y")
  ∧ first_diff (replicate 31 (lit "v")) (replicate 30 (lit "v"))
    = (31, lit "[local length=31]", lit "[ref length=30]")
  ∧ first_diff [lit "In the beginning God created the heaven and the earth."]
               [lit "In the beginning God created the heaven and the earth"]
    = (-1, [], []).
Proof.
  split; [|split].
  - apply (proj1 (first_diff_correct _ _) 1%nat); [done|done| |by vm_compute].
    intros [|j] l r Hj Hl Hr; [|lia]. simplify_eq/=. by vm_compute.
  - etrans; [apply (proj1 (proj2 (first_diff_correct _ _)))|by vm_compute].
    + intros j l r _ Hl Hr.
      apply lookup_replicate in Hl as [-> _]. by apply lookup_replicate in Hr as [-> _].
    + by vm_compute.
  - apply (proj2 (proj2 (first_diff_correct _ _))); [|done].
    intros [|j] l r Hj Hl Hr; [|simpl in Hj; lia]. simplify_eq/=. by vm_compute.
Defined.

End DiffEngineExamples.

(** ** The normaliser *)

Section NormalizerFacts.
Context `{Runtime}.

Lemma PUNCT_RX_sub_filter s :
  PUNCT_RX_sub s = filter (λ c, negb (PUNCT_RX_match c)) s.
Proof.
  induction s as [|c t IH]; [done|]. rewrite filter_cons. simpl.
  destruct (PUNCT_RX_match c); simpl; [done|by f_equal].
Qed.

Lemma lstrip_all_space s : forallb isspace s = true → lstrip s = [].
Proof.
  induction s as [|c t IH]; [done|]. simpl.
  intros [Hc Ht]%andb_true_iff. rewrite Hc. auto.
Qed.

Lemma lstrip_snoc s c :
  lstrip (s ++ [c]) =
    if forallb isspace s then (if isspace c then [] else [c]) else lstrip s ++ [c].
Proof.
  induction s as [|d t IH]; simpl; [done|].
  destruct (isspace d); simpl; [done|done].
Qed.

Lemma forallb_reverse (s : pystr) : forallb isspace (reverse s) = forallb isspace s.
Proof.
  induction s as [|c t IH]; [done|]. rewrite reverse_cons. simpl.
  rewrite forallb_app. simpl. rewrite IH. destruct (isspace c), (forallb isspace t); done.
Qed.

Lemma rstrip_all_space s : forallb isspace s = true → rstrip s = [].
Proof.
  intros Hs. unfold rstrip. rewrite lstrip_all_space; [done|].
  by rewrite forallb_reverse.
Qed.

Lemma rstrip_cons c t :
  rstrip (c :: t) = if forallb isspace (c :: t) then [] else c :: rstrip t.
Proof.
  unfold rstrip. rewrite reverse_cons, lstrip_snoc, forallb_reverse. simpl.
  destruct (forallb isspace t) eqn:Et.
  - rewrite lstrip_all_space by (by rewrite forallb_reverse).
    destruct (isspace c); done.
  - rewrite andb_false_r. by rewrite reverse_app.
Qed.

Lemma rstrip_nil_iff s : rstrip s = [] ↔ forallb isspace s = true.
Proof.
  split; [|apply rstrip_all_space].
  destruct s as [|c t]; [done|]. rewrite rstrip_cons.
  by destruct (forallb isspace (c :: t)).
Qed.

Section WithSpace.
Hypothesis Hsp : isspace 32%N = true.

Lemma lstrip_space_sub b s :
  lstrip (space_sub_from b s) = space_sub_from false (lstrip s).
Proof using Hsp.
  revert b. induction s as [|c t IH]; intros b; [done|]. simpl.
  destruct (isspace c) eqn:Ec.
  - destruct b; simpl; rewrite ?Hsp; apply IH.
  - simpl. by rewrite Ec.
Qed.

Lemma squash_rstrip s :
  squash InWord s = rstrip (space_sub_from false s)
  ∧ squash Pending s =
      match rstrip (space_sub_from true s) with
      | [] => []
      | r => 32%N :: r
      end.
Proof using Hsp.
  induction s as [|c t [IH1 IH2]]; [done|]. simpl.
  destruct (isspace c) eqn:Ec; simpl.
  - split; [|done]. rewrite IH2, rstrip_cons. simpl. rewrite Hsp. simpl.
    destruct (forallb isspace (space_sub_from true t)) eqn:Ea.
    + by rewrite rstrip_all_space.
    + destruct (rstrip (space_sub_from true t)) eqn:Er; [|done].
      apply rstrip_nil_iff in Er. congruence.
  - rewrite !rstrip_cons. simpl. rewrite Ec. simpl. by rewrite IH1.
Qed.

Lemma squash_Start_lstrip s : squash Start s = squash InWord (lstrip s).
Proof.
  induction s as [|c t IH]; [done|]. simpl.
  destruct (isspace c) eqn:Ec; simpl; [done|]. by rewrite Ec.
Qed.

(** Collapsing then trimming is one pass of [squash]. *)
Lemma strip_space_sub s : strip (SPACE_RX_sub s) = squash Start s.
Proof using Hsp.
  unfold strip, SPACE_RX_sub.
  rewrite lstrip_space_sub, squash_Start_lstrip. symmetry. apply squash_rstrip.
Qed.

(** The three positions of two nested passes and one direct pass over
    the same text stay related. *)
Definition in_step (g1 g2 g2' : gap) : Prop :=
  match g1 with
  | Start => g2 = Start ∧ g2' = Start
  | InWord => g2 = g2'
  | Pending => g2' = after_space g2
  end.

Lemma filter_keep_true (keep : char → bool) c (t : pystr) :
  keep c = true → filter (λ c, keep c) (c :: t) = c :: filter (λ c, keep c) t.
Proof. intros Hc. rewrite filter_cons. by rewrite decide_True by (by apply Is_true_true). Qed.

Lemma filter_keep_false (keep : char → bool) c (t : pystr) :
  keep c = false → filter (λ c, keep c) (c :: t) = filter (λ c, keep c) t.
Proof. intros Hc. rewrite filter_cons. by rewrite decide_False by (by apply Is_true_false). Qed.

Lemma filter_keep_all (keep : char → bool) (s : pystr) :
  (∀ c, keep c = true) → filter (λ c, keep c) s = s.
Proof.
  intros Hk. induction s as [|c t IH]; [done|].
  by rewrite filter_keep_true, IH.
Qed.

Lemma squash_filter_squash (keep : char → bool) s g1 g2 g2' :
  (∀ c, isspace c = true → keep c = true) →
  in_step g1 g2 g2' →
  squash g2 (filter (λ c, keep c) (squash g1 s)) = squash g2' (filter (λ c, keep c) s).
Proof using Hsp.
  intros Hkeep. revert g1 g2 g2'.
  assert (Hk32 : keep 32%N = true) by auto.
  induction s as [|c t IH]; intros g1 g2 g2' Hstep; [done|]. simpl.
  destruct (isspace c) eqn:Ec.
  - rewrite (filter_keep_true _ c t) by auto. simpl. rewrite Ec.
    apply IH. destruct g1; simpl in *; [by destruct Hstep as [-> ->]|by subst|].
    subst. by destruct g2.
  - destruct (keep c) eqn:Ek.
    + rewrite (filter_keep_true _ c t) by done. simpl. rewrite Ec.
      pose proof (IH InWord InWord InWord eq_refl) as IH'.
      destruct g1; simpl in Hstep.
      * destruct Hstep as [-> ->]. rewrite filter_keep_true by done.
        simpl. by rewrite Ec, IH'.
      * subst g2'. rewrite filter_keep_true by done. simpl. rewrite Ec, IH'.
        by destruct g2.
      * subst g2'. rewrite !filter_keep_true by done. simpl. rewrite Hsp, Ec, IH'.
        by destruct g2.
    + rewrite (filter_keep_false _ c t) by done.
      destruct g1; simpl in Hstep.
      * destruct Hstep as [-> ->]. rewrite filter_keep_false by done. by apply IH.
      * subst g2'. rewrite filter_keep_false by done. by apply IH.
      * subst g2'. rewrite filter_keep_true, filter_keep_false by done.
        simpl. rewrite Hsp. by apply IH.
Qed.

End WithSpace.

Lemma PUNCT_RX_sub_keep s :
  PUNCT_RX_sub s = filter (λ c, word_char c || isspace c) s.
Proof.
  induction s as [|c t IH]; [done|]. simpl. unfold PUNCT_RX_match.
  destruct (word_char c || isspace c) eqn:E; simpl.
  - by rewrite (filter_keep_true (λ c, word_char c || isspace c)), IH.
  - by rewrite (filter_keep_false (λ c, word_char c || isspace c)).
Qed.

Lemma filter_replace (punct : char → bool) old new s :
  punct old = true → punct new = true →
  filter (λ c, negb (punct c)) (replace old new s) = filter (λ c, negb (punct c)) s.
Proof.
  intros Ho Hn. unfold replace.
  induction s as [|c t IH]; [done|]. rewrite fmap_cons.
  destruct (N.eqb_spec c old) as [->|Hne].
  - rewrite !(filter_keep_false (λ c, negb (punct c))) by (by rewrite ?Ho, ?Hn). done.
  - destruct (punct c) eqn:Ec.
    + rewrite !(filter_keep_false (λ c, negb (punct c))) by (by rewrite Ec). done.
    + rewrite !(filter_keep_true (λ c, negb (punct c))) by (by rewrite Ec). by rewrite IH.
Qed.

(** Under the Unicode facts, strict normalisation is a function of the
    text with its punctuation left out. *)
Lemma norm_text_strict_closed_form s :
  unicode_facts →
  norm_text_strict s = lower (squash Start (filter (λ c, negb (PUNCT_RX_match c)) s)).
Proof.
  intros [Hsp Hq]. unfold norm_text_strict, norm_text.
  rewrite !strip_space_sub by done. rewrite PUNCT_RX_sub_filter.
  rewrite (squash_filter_squash Hsp (λ c, negb (PUNCT_RX_match c)) _ Start Start Start);
    [|by intros c Hc; unfold PUNCT_RX_match; rewrite Hc, orb_true_r|done].
  rewrite !filter_replace; [done|apply Hq; set_solver..].
Qed.

End NormalizerFacts.

(** C2, as the code has it.  Strict normalisation is Loose
    normalisation, then removal of every character that is neither a
    word character (alphanumeric or the underscore) nor whitespace, then
    whitespace collapsing and trimming, then lowercasing.  Consequently
    two texts that differ only in such removed characters have equal
    strict normalisations, given that U+0020 is whitespace and the
    quotation marks are punctuation. *)
Theorem norm_text_strict_correct `{Runtime} :
  (∀ s, norm_text_strict s =
          lower (strip (SPACE_RX_sub
            (filter (λ c, word_char c || isspace c) (norm_text s)))))
  ∧ (unicode_facts → ∀ a b,
       differ_only_in PUNCT_RX_match a b → norm_text_strict a = norm_text_strict b).
Proof.
  split.
  - intros s. unfold norm_text_strict. by rewrite PUNCT_RX_sub_keep.
  - intros Hf a b Hab. rewrite !norm_text_strict_closed_form by done.
    unfold differ_only_in in Hab. by rewrite Hab.
Qed.

Section NormalizerExamples.
#[local] Existing Instance ascii_runtime.

Lemma ascii_unicode_facts : unicode_facts.
Proof.
  split; [done|]. intros c Hc.
  repeat (apply elem_of_cons in Hc as [->|Hc]; [done|]). by apply elem_of_nil in Hc.
Qed.

Lemma norm_text_strict_correct_witness :
  differ_only_in PUNCT_RX_match (lit "Let there be light.") (lit "Let there be light")
  ∧ norm_text_strict (lit "Let there be light.") = norm_text_strict (lit "Let there be light").
Proof.
  split; [by vm_compute|].
  apply (proj2 norm_text_strict_correct ascii_unicode_facts). by vm_compute.
Defined.

(** The underscore is neither a letter, a digit nor whitespace, and
    [PUNCT_RX] keeps it: the two readings of strict normalisation part
    on "a_b", and "a_b" and "ab", which differ in punctuation only, are
    not equal under strict normalisation. *)
Lemma strict_keeps_underscore :
  norm_text_strict (lit "a_b") = lit "a_b"
  ∧ strict_as_specified (lit "a_b") = lit "ab"
  ∧ norm_text_strict (lit "a_b") ≠ strict_as_specified (lit "a_b")
  ∧ differ_only_in specified_punct (lit "a_b") (lit "ab")
  ∧ norm_text_strict (lit "a_b") ≠ norm_text_strict (lit "ab").
Proof. by vm_compute. Qed.

End NormalizerExamples.

(** ** The fetcher *)

Section FetcherFacts.
Context `{Runtime}.
Variable net : network.
Variables (book : list N) (ch : Z).

Lemma after_failures_nil w : after_failures w [] = w.
Proof.
  destruct w. unfold after_failures. simpl. by rewrite Nat.add_0_r, app_nil_r.
Qed.

Lemma after_failures_cons w o errs :
  after_failures w (o :: errs) =
    after_failures (World (S (requests w)) (slept w ++ [pause o]) (printed w) (csv_out w)) errs.
Proof.
  unfold after_failures. simpl. f_equal; [lia|]. by rewrite <- app_assoc.
Qed.

Lemma fetch_loop_failures errs k last w :
  fail_as net book ch w errs →
  fetch_loop net book ch (length errs + k) last w =
    fetch_loop net book ch k (last_recorded last errs) (after_failures w errs).
Proof.
  revert last w. induction errs as [|o errs IH]; intros last w Hf.
  - by rewrite after_failures_nil.
  - rewrite after_failures_cons. simpl length. simpl fetch_loop.
    unfold mbind at 1, IO_bind, requests_get at 1.
    pose proof (Hf 0%nat o eq_refl) as H0. rewrite Nat.add_0_r in H0. rewrite H0.
    assert (fail_as net book ch (World (S (requests w)) (slept w ++ [pause o]) (printed w) (csv_out w)) errs) as Hf'.
    { intros i o' Hi. simpl. rewrite <- Nat.add_succ_r. by apply (Hf (S i)). }
    destruct o as [e|]; simpl; unfold mbind, IO_bind, sleep; simpl; by rewrite IH.
Qed.

End FetcherFacts.

(** C3, as the code has it.  Every attempt, a 429 included, uses one of
    the [RETRY_COUNT = 3] iterations; a 429 is followed by a 2-second
    sleep and leaves the recorded error untouched, any other failure is
    followed by a 1.5-second sleep and is recorded.  (1) Fewer than three
    failed attempts followed by a success return the successful verse
    list.  (2) Three failed attempts raise the exhaustion error carrying
    the last recorded error, which is absent when all three were 429s. *)
Theorem fetch_ref_chapter_correct `{Runtime} (net : network) (book : list N) (ch : Z)
    (w : world) (errs : list (option exn)) :
  fail_as net book ch w errs →
  (∀ texts, (length errs < RETRY_COUNT)%nat →
     attempt (net (requests w + length errs)%nat book ch) = inr texts →
     fetch_ref_chapter net book ch w =
       (inr texts,
        World (requests w + length errs + 1) (slept w ++ (pause <$> errs))
          (printed w) (csv_out w)))
  ∧ (length errs = RETRY_COUNT →
     fetch_ref_chapter net book ch w =
       (inl (RuntimeError book ch (last_recorded None errs)), after_failures w errs)).
Proof.
  intros Hf. unfold fetch_ref_chapter. split.
  - intros texts Hlt Hok.
    replace RETRY_COUNT with (length errs + S (RETRY_COUNT - length errs - 1))%nat by lia.
    rewrite fetch_loop_failures by done. simpl.
    unfold mbind, IO_bind, requests_get. simpl. rewrite Hok. unfold mret, IO_ret.
    do 2 f_equal. lia.
  - intros Hlen. replace RETRY_COUNT with (length errs + 0)%nat by lia.
    by rewrite fetch_loop_failures.
Qed.

Section FetcherExamples.
#[local] Existing Instance ascii_runtime.
Import Sample.

Lemma fetch_ref_chapter_correct_witness :
  fetch_ref_chapter (rate_limited_first 2) (lit "Genesis") 1 w0
    = (inr [genesis_1_1], World 3 [2000; 2000]%N [] None)
  ∧ fetch_ref_chapter flaky (lit "Genesis") 1 w0
    = (inl (RuntimeError (lit "Genesis") 1 (Some (HTTPError 503))),
       World 3 [2000; 1500; 2000]%N [] None).
Proof.
  split.
  - apply (proj1 (fetch_ref_chapter_correct (rate_limited_first 2) (lit "Genesis") 1 w0
                    [None; None]
                    ltac:(intros [|[|i]] o Hi; by simplify_eq/=)));
      [unfold RETRY_COUNT; simpl; lia|by vm_compute].
  - apply (proj2 (fetch_ref_chapter_correct flaky (lit "Genesis") 1 w0
                    [None; Some (HTTPError 503); None]
                    ltac:(intros [|[|[|i]]] o Hi; by simplify_eq/=))).
    done.
Defined.

(** Three 429 replies use up the three iterations: the fourth request,
    which would succeed, is never issued, and the exhaustion error
    carries no error at all. *)
Lemma three_429_exhaust_the_budget :
  fail_as (rate_limited_first 3) (lit "Genesis") 1 w0 [None; None; None]
  ∧ attempt (rate_limited_first 3 3%nat (lit "Genesis") 1) = inr [genesis_1_1]
  ∧ fetch_ref_chapter (rate_limited_first 3) (lit "Genesis") 1 w0
    = (inl (RuntimeError (lit "Genesis") 1 None), World 3 [2000; 2000; 2000]%N [] None).
Proof.
  split; [|by vm_compute].
  intros [|[|[|i]]] o Hi; by simplify_eq/=.
Qed.

End FetcherExamples.

(** ** Snippets *)

Section SnippetFacts.
Context `{Runtime}.

Lemma first_diff_loop_inv (local ref : list (list N)) k i v l r :
  first_diff_loop local ref k i = Some (v, l, r) →
  ∃ j, (i ≤ j < i + k)%nat ∧ v = Z.of_nat j + 1
       ∧ local !! j = Some l ∧ ref !! j = Some r
       ∧ norm_text_strict l ≠ norm_text_strict r.
Proof.
  revert i. induction k as [|k IH]; intros i; [done|]. simpl.
  destruct (local !! i) as [l'|] eqn:El; [|done].
  destruct (ref !! i) as [r'|] eqn:Er; [|done].
  destruct (decide _) as [Heq|Hne].
  - intros (j & Hj & Hrest)%IH. exists j. split; [lia|done].
  - intros [= <- <- <-]. exists i. split; [lia|done].
Qed.

Lemma comprehension_inv {A B} (f : A → result B) xs ys :
  comprehension f xs = inr ys → Forall2 (λ x y, f x = inr y) xs ys.
Proof.
  revert ys. induction xs as [|x xs IH]; intros ys; simpl.
  - intros [= <-]. constructor.
  - unfold mbind, result_bind, mret, result_ret.
    destruct (f x) as [e|y] eqn:Ef; [done|].
    destruct (comprehension f xs) as [e|ys'] eqn:Ec; [done|].
    intros [= <-]. constructor; auto.
Qed.

Lemma attempt_loose r texts :
  attempt r = inr texts → Forall (λ t, ∃ raw, t = norm_text raw) texts.
Proof.
  destruct r as [e|code json]; simpl; [done|].
  destruct (code =? 429); [done|].
  destruct (parse_reply code json) as [e|ts] eqn:Ep; [done|]. intros [= <-].
  unfold parse_reply, mbind, result_bind in Ep.
  destruct (raise_for_status code); [done|]. destruct json as [|js]; [done|].
  destruct (get js _ _) as [|verses]; [done|].
  destruct (iterate verses) as [|vs]; [done|].
  apply comprehension_inv in Ep.
  induction Ep as [|v t vs' ts' Hv _ IH]; constructor; [|done].
  destruct (text_of v) as [|raw]; [done|]. exists raw. by injection Hv as <-.
Qed.

Lemma fetch_loop_loose net book ch k last w texts w' :
  fetch_loop net book ch k last w = (inr texts, w') →
  Forall (λ t, ∃ raw, t = norm_text raw) texts.
Proof.
  revert last w. induction k as [|k IH]; intros last w; simpl; [done|].
  unfold mbind, IO_bind, requests_get. simpl.
  destruct (attempt _) as [[e|]|ts] eqn:Ea; simpl.
  - apply IH.
  - apply IH.
  - intros [= <- _]. by eapply attempt_loose.
Qed.

Lemma straight_quotes_fmap s : straight_quotes s = straight_quote <$> s.
Proof.
  unfold straight_quotes, replace. rewrite <- !list_fmap_compose.
  apply list_fmap_ext. intros _ c _. unfold compose, straight_quote.
  destruct (N.eqb_spec c 8220) as [->|H1]; [done|]. cbn iota.
  destruct (N.eqb_spec c 8221) as [->|H2]; [done|]. cbn iota.
  destruct (N.eqb_spec c 8217) as [->|H3]; [done|]. cbn iota.
  by destruct (N.eqb_spec c 8216) as [->|H4].
Qed.

Lemma straight_quote_idemp c : straight_quote (straight_quote c) = straight_quote c.
Proof.
  unfold straight_quote at 2 3.
  destruct (N.eqb_spec c 8220) as [->|H1]; [done|].
  destruct (N.eqb_spec c 8221) as [->|H2]; [done|].
  destruct (N.eqb_spec c 8217) as [->|H3]; [done|].
  destruct (N.eqb_spec c 8216) as [->|H4]; [done|].
  unfold straight_quote. by rewrite !(proj2 (N.eqb_neq _ _)) by done.
Qed.

Lemma straight_quotes_idemp s : straight_quotes (straight_quotes s) = straight_quotes s.
Proof.
  rewrite !straight_quotes_fmap, <- list_fmap_compose.
  apply list_fmap_ext. intros _ c _. apply straight_quote_idemp.
Qed.

Lemma squash_replace old new g s :
  isspace 32%N = true → isspace old = false → isspace new = false →
  squash g (replace old new s) = replace old new (squash g s).
Proof.
  intros Hsp Ho Hn. assert (32%N ≠ old) as H32 by (intros <-; congruence).
  revert g. induction s as [|c t IH]; intros g; [done|].
  unfold replace in *. rewrite fmap_cons. simpl.
  destruct (N.eqb_spec c old) as [->|Hne].
  - rewrite Ho, Hn. destruct g; rewrite !fmap_cons, ?IH, ?N.eqb_refl;
      try (destruct (N.eqb_spec 32 old); [done|]); done.
  - destruct (isspace c) eqn:Ec; [done|].
    destruct g; rewrite !fmap_cons, ?IH;
      try (destruct (N.eqb_spec 32 old); [done|]);
      by destruct (N.eqb_spec c old).
Qed.

Lemma norm_text_squash s :
  isspace 32%N = true → norm_text s = squash Start (straight_quotes s).
Proof. intros Hsp. unfold norm_text. by rewrite strip_space_sub. Qed.

(** Loose normalisation is idempotent. *)
Lemma norm_text_idemp s : unicode_facts → norm_text (norm_text s) = norm_text s.
Proof.
  intros [Hsp Hq]. rewrite !norm_text_squash by done.
  assert (∀ c : N, c ∈ [8220; 8221; 8217; 8216; 34; 39]%N → isspace c = false) as Hns.
  { intros c Hc. apply Hq in Hc. unfold PUNCT_RX_match in Hc.
    destruct (isspace c); [|done]. by rewrite orb_true_r in Hc. }
  unfold straight_quotes at 1.
  rewrite <- !squash_replace by (done || apply Hns; set_solver).
  fold (straight_quotes (straight_quotes s)). rewrite straight_quotes_idemp.
  pose proof (squash_filter_squash Hsp (λ _, true) (straight_quotes s)
                Start Start Start (λ _ _, eq_refl) (conj eq_refl eq_refl)) as Hi.
  by rewrite !(filter_keep_all (λ _, true)) in Hi.
Qed.

End SnippetFacts.

(** C4, as the code has it.  When [first_diff] reports a content
    difference at verse [vnum], both snippets are the elements of its two
    arguments at index [vnum - 1], handed back unchanged: strict
    normalisation is applied inside the equality test only.  The
    reference snippet is in Loose form whenever the reference list comes
    from [fetch_ref_chapter], which normalises every verse it returns.
    Nothing of the kind holds of the local snippet: it is the text as
    [read_local_chapter] returns it. *)
Theorem first_diff_snippets `{Runtime} (local ref : list (list N)) (vnum : Z) (lv rv : list N) :
  first_diff local ref = (vnum, lv, rv) →
  vnum ≠ -1 →
  vnum ≤ Z.of_nat (Nat.min (length local) (length ref)) →
  local !! Z.to_nat (vnum - 1) = Some lv
  ∧ ref !! Z.to_nat (vnum - 1) = Some rv
  ∧ norm_text_strict lv ≠ norm_text_strict rv
  ∧ (∀ net book ch w w',
       fetch_ref_chapter net book ch w = (inr ref, w') →
       (∃ raw, rv = norm_text raw) ∧ (unicode_facts → norm_text rv = rv)).
Proof.
  unfold first_diff. intros Hfd Hne Hle.
  destruct (first_diff_loop _ _ _ _) as [[[v l] r]|] eqn:Eloop.
  - injection Hfd as -> -> ->.
    apply first_diff_loop_inv in Eloop as (j & Hj & -> & Hl & Hr & Hdiff).
    replace (Z.to_nat (Z.of_nat j + 1 - 1)) with j by lia.
    split; [done|]. split; [done|]. split; [done|].
    intros net book ch w w' Hfetch. unfold fetch_ref_chapter in Hfetch.
    apply (fetch_loop_loose net book ch RETRY_COUNT None w ref w') in Hfetch.
    eapply Forall_lookup_1 in Hfetch as [raw ->]; [|done].
    split; [by exists raw|]. intros Hf. by apply norm_text_idemp.
  - destruct (decide _).
    + injection Hfd as <- _ _. lia.
    + by injection Hfd as <- _ _.
Qed.

Section SnippetExamples.
#[local] Existing Instance ascii_runtime.
Import Sample.

Lemma first_diff_snippets_witness :
  [padded_verse] !! 0%nat = Some padded_verse
  ∧ [genesis_1_1] !! 0%nat = Some genesis_1_1
  ∧ norm_text genesis_1_1 = genesis_1_1.
Proof.
  assert (Hfetch : fetch_ref_chapter (rate_limited_first 0) (lit "Genesis") 1 w0
                   = (inr [genesis_1_1], World 1 [] [] None)) by (by vm_compute).
  destruct (first_diff_snippets [padded_verse] [genesis_1_1] 1 padded_verse genesis_1_1)
    as (Hl & Hr & _ & Href); [by vm_compute|done|simpl; lia|].
  split; [exact Hl|]. split; [exact Hr|].
  exact (proj2 (Href _ _ _ _ _ Hfetch) ascii_unicode_facts).
Defined.

(** The verse on disk starts with two blanks.  [read_local_chapter]
    returns it as it is, and so does [first_diff]: the local snippet is
    not in Loose form. *)
Lemma local_snippet_is_raw :
  read_local_chapter blank_led_corpus (lit "Genesis") 1
    = inr ([padded_verse], verses_object [padded_verse])
  ∧ fetch_ref_chapter (rate_limited_first 0) (lit "Genesis") 1 w0
    = (inr [genesis_1_1], World 1 [] [] None)
  ∧ first_diff [padded_verse] [genesis_1_1] = (1, padded_verse, genesis_1_1)
  ∧ norm_text padded_verse = lit "In the beginning"
  ∧ padded_verse ≠ norm_text padded_verse.
Proof. by vm_compute. Qed.

End SnippetExamples.

(** ** Discovery *)

Lemma KJV_BOOKS_IN_ORDER_NoDup : NoDup KJV_BOOKS_IN_ORDER.
Proof. apply (bool_decide_unpack (NoDup KJV_BOOKS_IN_ORDER)). by vm_compute. Qed.

Lemma isdir_listed root d : isdir root d = true → d ∈ listdir_root root.
Proof.
  unfold isdir, listdir_root. induction root as [|[n x] root IH]; simpl; [done|].
  destruct (decide (n = d)) as [->|Hne]; intros Hd; [left|right; auto].
Qed.

(** C5.  The canonical list has 66 entries.  [discover_books] returns
    exactly the canonical names that are directories at the corpus root,
    names being compared by equality of their code points; the result is
    a subsequence of the canonical list, without repetition, so the
    order is the canonical one; and it depends on the directory listing
    only through which names are directories. *)
Theorem discover_books_correct (root : tree) :
  length KJV_BOOKS_IN_ORDER = 66%nat
  ∧ (∀ b, b ∈ discover_books root ↔
       b ∈ KJV_BOOKS_IN_ORDER ∧ b ∈ listdir_root root ∧ isdir root b = true)
  ∧ discover_books root `sublist_of` KJV_BOOKS_IN_ORDER
  ∧ NoDup (discover_books root)
  ∧ (∀ root', (∀ d, isdir root d = isdir root' d) →
       discover_books root = discover_books root').
Proof.
  split; [done|]. split; [|split; [|split]].
  - intros b. unfold discover_books.
    rewrite list_elem_of_filter, elem_of_list_to_set, list_elem_of_filter.
    split; [intros [[Hd Hl] Hb]|intros (Hb & Hl & Hd)]; done.
  - apply sublist_filter.
  - apply NoDup_filter, KJV_BOOKS_IN_ORDER_NoDup.
  - intros root' Hsame. unfold discover_books. apply list_filter_iff. intros b.
    rewrite !elem_of_list_to_set, !list_elem_of_filter.
    split; intros [Hd _]; (split; [|apply isdir_listed]); congruence.
Qed.

Section DiscoveryExamples.
Import Sample.

Lemma discover_books_shuffled :
  discover_books shuffled_root = [lit "Genesis"; lit "Revelation"].
Proof. by vm_compute. Qed.

End DiscoveryExamples.

Section ChapterDiscoveryFacts.
Context `{Runtime}.

Lemma collect_nums_omap names nums :
  collect_nums names nums = nums ++ omap stem_number names.
Proof.
  revert nums. induction names as [|name rest IH]; intros nums; simpl.
  - by rewrite app_nil_r.
  - unfold stem_number at 1.
    destruct (endswith name _); [|apply IH].
    destruct (int_of_str _) as [n|]; [|apply IH].
    by rewrite IH, <- app_assoc.
Qed.

Lemma discover_chapters_Permutation root book :
  discover_chapters root book ≡ₚ omap stem_number (listdir root book).
Proof.
  unfold discover_chapters, sorted. rewrite merge_sort_Permutation.
  by rewrite collect_nums_omap.
Qed.

Lemma discover_chapters_sorted root book :
  StronglySorted Z.le (discover_chapters root book).
Proof. apply (StronglySorted_merge_sort Z.le). Qed.

End ChapterDiscoveryFacts.

(** ** The run *)

Ltac io_unfold :=
  unfold mbind, IO_bind, mret, IO_ret, print, sleep, write_csv, requests_get.

Section RunFacts.
Context `{Runtime}.
Variable root : tree.
Variable net : network.

(** The fetcher neither prints nor touches the report. *)
Lemma fetch_loop_quiet book ch k last w :
  printed (fetch_loop net book ch k last w).2 = printed w
  ∧ csv_out (fetch_loop net book ch k last w).2 = csv_out w.
Proof.
  revert last w. induction k as [|k IH]; intros last w; simpl; [done|].
  io_unfold. simpl.
  destruct (attempt _) as [[e|]|ts]; simpl; [| |done].
  - by destruct (IH (Some e) (World (S (requests w)) (slept w ++ [RETRY_SLEEP_SEC])
                                (printed w) (csv_out w))).
  - by destruct (IH last (World (S (requests w)) (slept w ++ [RATE_LIMIT_SLEEP])
                            (printed w) (csv_out w))).
Qed.

(** One pass of the chapter loop prints one status line, about its own
    chapter, and leaves the report alone. *)
Lemma chapter_body_line book ch l w :
  ∃ ln, printed (chapter_body root net book ch l w).2 = printed w ++ [ln]
        ∧ chapter_of_line ln = Some (book, ch)
        ∧ csv_out (chapter_body root net book ch l w).2 = csv_out w.
Proof.
  unfold chapter_body.
  destruct (read_local_chapter root book ch) as [e|[local_verses data]].
  - destruct (is_FileNotFoundError e); io_unfold; simpl; eauto.
  - io_unfold. unfold fetch_ref_chapter.
    pose proof (fetch_loop_quiet book ch RETRY_COUNT None w) as [Hp Hc].
    destruct (fetch_loop net book ch RETRY_COUNT None w) as [[e|ref_verses] w1];
      simpl in *.
    + rewrite Hp, Hc. eauto.
    + destruct (first_diff local_verses ref_verses) as [[vnum lv] rv].
      destruct (vnum =? -1); simpl; rewrite Hp, Hc; eauto.
Qed.

Lemma for_chapters_processed book chapters l w :
  processed (printed (for_chapters root net book chapters l w).2)
    = processed (printed w) ++ ((λ ch, (book, ch)) <$> chapters)
  ∧ csv_out (for_chapters root net book chapters l w).2 = csv_out w.
Proof.
  revert l w. induction chapters as [|ch rest IH]; intros l w; simpl.
  - by rewrite app_nil_r.
  - io_unfold.
    destruct (chapter_body_line book ch l w) as (ln & Hp & Hln & Hc).
    destruct (chapter_body root net book ch l w) as [l1 w1]. simpl in *.
    destruct (IH l1 w1) as [IHp IHc]. rewrite IHp, IHc, Hp, Hc.
    split; [|done]. unfold processed. rewrite omap_app. simpl. rewrite Hln.
    by rewrite <- app_assoc.
Qed.

Lemma book_body_processed book l w :
  processed (printed (book_body root net book l w).2)
    = processed (printed w) ++ ((λ ch, (book, ch)) <$> discover_chapters root book)
  ∧ csv_out (book_body root net book l w).2 = csv_out w.
Proof.
  unfold book_body. case_bool_decide as Hch.
  - rewrite Hch. io_unfold. simpl. unfold processed. rewrite omap_app. simpl.
    by rewrite !app_nil_r.
  - io_unfold.
    destruct (for_chapters_processed book (discover_chapters root book) l
                (World (requests w) (slept w)
                   (printed w ++ [BookHeader book (length (discover_chapters root book))])
                   (csv_out w))) as [Hp Hc].
    rewrite Hp, Hc. simpl. unfold processed. rewrite omap_app. simpl.
    by rewrite app_nil_r.
Qed.

Lemma for_books_processed books l w :
  processed (printed (for_books root net books l w).2)
    = processed (printed w)
      ++ (b ← books; (λ ch, (b, ch)) <$> discover_chapters root b)
  ∧ csv_out (for_books root net books l w).2 = csv_out w.
Proof.
  revert l w. induction books as [|b rest IH]; intros l w; simpl.
  - by rewrite app_nil_r.
  - io_unfold.
    destruct (book_body_processed b l w) as [Hp Hc].
    destruct (book_body root net b l w) as [l1 w1]. simpl in *.
    destruct (IH l1 w1) as [IHp IHc]. rewrite IHp, IHc, Hp, Hc.
    by rewrite <- app_assoc.
Qed.

Lemma main_no_books w :
  discover_books root = [] →
  main root net w =
    (inr (), World (requests w) (slept w) (printed w ++ [NoBooksFound]) (csv_out w)).
Proof. intros Hb. unfold main. by rewrite Hb. Qed.

Lemma main_scan w :
  discover_books root ≠ [] → main root net w = finish (scan root net w).
Proof.
  intros Hb. unfold main, scan, finish, no_locals. rewrite bool_decide_false by done.
  io_unfold. simpl.
  destruct (for_books _ _ _ _ _) as [l1 w1]. simpl.
  destruct (bool_decide (mismatches l1 = [])); [done|].
  unfold write_csv. by destruct (write_rows _ _) as [[e|[]] written].
Qed.

(** The summary is no per-chapter status line. *)
Lemma finish_processed lw :
  processed (printed (finish lw).2) = processed (printed lw.2).
Proof.
  unfold finish. destruct (bool_decide _).
  - simpl. unfold processed. rewrite omap_app. simpl. by rewrite app_nil_r.
  - destruct (write_rows _ _).1; simpl; [done|].
    unfold processed. rewrite omap_app. simpl. by rewrite app_nil_r.
Qed.

(** The console of a whole run reports on the ChapterRefs of the corpus,
    each as often and in the order [chapter_refs] lists it. *)
Lemma main_processed w :
  processed (printed (main root net w).2) = processed (printed w) ++ chapter_refs root.
Proof.
  destruct (decide (discover_books root = [])) as [Hb|Hb].
  - rewrite main_no_books by done. unfold chapter_refs. rewrite Hb. simpl.
    unfold processed. rewrite omap_app. simpl. by rewrite !app_nil_r.
  - rewrite main_scan, finish_processed by done. unfold scan.
    destruct (for_books_processed (discover_books root) no_locals
                (print (FoundBooks (length (discover_books root))) w).2) as [Hp _].
    rewrite Hp. simpl. unfold processed. rewrite omap_app. simpl.
    by rewrite app_nil_r.
Qed.

End RunFacts.

(** C6, as the code has it.  [discover_chapters] returns, in ascending
    order and with multiplicity, the integers that the entries of the
    book directory stand for: the names ending in ".json" whose stem
    parses as an integer; every other entry is skipped.  A run reports on
    the ChapterRefs of [chapter_refs], each as often as it is listed
    there.  A ChapterRef is therefore processed at most once provided
    that, in each discovered book, no two entries stand for the same
    chapter number. *)
Theorem discover_chapters_correct `{Runtime} (root : tree) (net : network) :
  (∀ book,
     StronglySorted Z.le (discover_chapters root book)
     ∧ discover_chapters root book ≡ₚ omap stem_number (listdir root book))
  ∧ (∀ w, processed (printed (main root net w).2)
          = processed (printed w) ++ chapter_refs root)
  ∧ ((∀ book, book ∈ discover_books root →
        NoDup (omap stem_number (listdir root book))) →
     NoDup (chapter_refs root)).
Proof.
  split; [|split].
  - intros book. split;
      [apply discover_chapters_sorted|apply discover_chapters_Permutation].
  - apply main_processed.
  - intros Hnd. unfold chapter_refs. apply NoDup_bind.
    + intros b1 b2 [b ch] _ _ Hin1 Hin2.
      apply list_elem_of_fmap in Hin1 as (? & [= -> _] & _).
      by apply list_elem_of_fmap in Hin2 as (? & [= -> _] & _).
    + intros b Hb. apply (NoDup_fmap_2 _).
      rewrite discover_chapters_Permutation. by apply Hnd.
    + apply discover_books_correct.
Qed.

Section ChapterDiscoveryExamples.
#[local] Existing Instance ascii_runtime.
Import Sample.

Lemma discover_chapters_three :
  discover_chapters three_chapter_root (lit "Genesis") = [1; 2; 10].
Proof. by vm_compute. Qed.

Lemma discover_chapters_correct_witness :
  NoDup (chapter_refs three_chapter_root).
Proof.
  apply (proj2 (proj2 (discover_chapters_correct three_chapter_root (rate_limited_first 0)))).
  intros book Hb.
  assert (book = lit "Genesis") as ->.
  { apply (proj1 (proj2 (discover_books_correct three_chapter_root))) in Hb
      as (_ & Hl & _).
    by repeat (apply elem_of_cons in Hl as [->|Hl]; [done|]);
       apply elem_of_nil in Hl. }
  apply (bool_decide_unpack (NoDup _)). by vm_compute.
Defined.

(** Chapter 1 of Genesis is on disk as "1.json" and as "01.json".  Both
    stems parse to 1, [discover_chapters] returns 1 twice, and the run
    processes the ChapterRef (Genesis, 1) twice. *)
Lemma chapter_processed_twice :
  discover_chapters twice_named_root (lit "Genesis") = [1; 1]
  ∧ processed (printed (main twice_named_root (rate_limited_first 0) w0).2)
    = [(lit "Genesis", 1); (lit "Genesis", 1)]
  ∧ ¬ NoDup (processed (printed (main twice_named_root (rate_limited_first 0) w0).2)).
Proof.
  split; [by vm_compute|]. split; [by vm_compute|].
  intros Hnd. apply (bool_decide_pack (NoDup _)) in Hnd. by vm_compute in Hnd.
Qed.

End ChapterDiscoveryExamples.

Section TallyFacts.
Context `{Runtime}.
Variable root : tree.
Variable net : network.

Lemma count_app p a b : count p (a ++ b) = (count p a + count p b)%nat.
Proof. unfold count. by rewrite filter_app, length_app. Qed.

Lemma processed_app a b : processed (a ++ b) = processed a ++ processed b.
Proof. apply omap_app. Qed.




(** One pass of the chapter loop, case by case. *)
Lemma chapter_body_read_error book ch l w e :
  read_local_chapter root book ch = inl e →
  chapter_body root net book ch l w =
    if is_FileNotFoundError e
    then (Locals (mismatches l) (S (totals l)) (matched l) (S (missing l)) (errors l),
          World (requests w) (slept w) (printed w ++ [MissingLine book ch]) (csv_out w))
    else (Locals (mismatches l) (S (totals l)) (matched l) (missing l) (S (errors l)),
          World (requests w) (slept w) (printed w ++ [ReadErrorLine book ch e]) (csv_out w)).
Proof. intros Hr. unfold chapter_body. rewrite Hr. by destruct (is_FileNotFoundError e). Qed.

Lemma chapter_body_fetch_error book ch l w local_verses data e w1 :
  read_local_chapter root book ch = inr (local_verses, data) →
  fetch_ref_chapter net book ch w = (inl e, w1) →
  chapter_body root net book ch l w =
    (Locals (mismatches l) (S (totals l)) (matched l) (missing l) (S (errors l)),
     World (requests w1) (slept w1) (printed w1 ++ [FetchErrorLine book ch e]) (csv_out w1)).
Proof.
  intros Hr Hf. unfold chapter_body. rewrite Hr. io_unfold. by rewrite Hf.
Qed.

Lemma chapter_body_compared book ch l w local_verses data ref_verses w1 vnum lv rv :
  read_local_chapter root book ch = inr (local_verses, data) →
  fetch_ref_chapter net book ch w = (inr ref_verses, w1) →
  first_diff local_verses ref_verses = (vnum, lv, rv) →
  chapter_body root net book ch l w =
    let slept' := slept w1 ++ [THROTTLE_BETWEEN_CALLS] in
    if vnum =? -1
    then (Locals (mismatches l) (S (totals l)) (S (matched l)) (missing l) (errors l),
          World (requests w1) slept' (printed w1 ++ [MatchLine book ch]) (csv_out w1))
    else (Locals (mismatches l ++
                    [Mismatch book ch vnum (slice_to 200 lv) (slice_to 200 rv)
                       (length local_verses) (length ref_verses)])
            (S (totals l)) (matched l) (missing l) (errors l),
          World (requests w1) slept' (printed w1 ++ [MismatchLine book ch vnum]) (csv_out w1)).
Proof.
  intros Hr Hf Hd. unfold chapter_body. rewrite Hr. io_unfold. rewrite Hf. simpl.
  rewrite Hd. by destruct (vnum =? -1).
Qed.



End TallyFacts.

Section LoopFacts.
Context `{Runtime}.
Variable root : tree.
Variable net : network.










(** Every per-chapter status line is of exactly one kind. *)
Lemma processed_count new :
  length (processed new) =
    (count is_match_line new + count is_mismatch_line new
     + count is_missing_line new + count is_error_line new)%nat.
Proof.
  induction new as [|ln new IH]; [done|].
  change (ln :: new) with ([ln] ++ new). rewrite processed_app, length_app, !count_app, IH.
  destruct ln; unfold count, processed; simpl; lia.
Qed.

End LoopFacts.


Lemma filter_keep_true_line (p : line → bool) ln (t : list line) :
  p ln = true → filter (λ l, p l) (ln :: t) = ln :: filter (λ l, p l) t.
Proof. intros Hp. rewrite filter_cons. by rewrite decide_True by (by apply Is_true_true). Qed.

Lemma filter_keep_false_line (p : line → bool) ln (t : list line) :
  p ln = false → filter (λ l, p l) (ln :: t) = filter (λ l, p l) t.
Proof. intros Hp. rewrite filter_cons. by rewrite decide_False by (by apply Is_true_false). Qed.

(** ** The local reader *)

Section ReaderFacts.
Context `{Runtime}.
Variable root : tree.

Lemma dict_get_absent d key default :
  (∀ v, (key, v) ∉ d) → dict_get d key default = default.
Proof.
  induction d as [|[k v] d IH]; intros Hno; [done|]. simpl.
  destruct (decide (k = key)) as [->|Hne].
  - destruct (Hno v). left.
  - apply IH. intros v' Hin. apply (Hno v'). by right.
Qed.

Lemma read_local_chapter_found book ch n :
  chapter_file root book ch = Some n →
  read_local_chapter root book ch =
    (data ← load n;
     verses ← get data (lit "verses") (PList []);
     objects ← (if truthy verses
                then v0 ← index0 verses; mret (isinstance_dict v0)
                else mret false);
     vs ← iterate verses;
     local_texts ← (if objects : bool then comprehension text_of vs
                    else mret (py_str <$> vs));
     mret (local_texts, data)).
Proof.
  unfold chapter_file, read_local_chapter. intros Hf.
  destruct (at_path root book (fmt02 ch ++ lit ".json")) as [n'|].
  - by injection Hf as ->.
  - by rewrite Hf.
Qed.

Lemma read_local_chapter_missing book ch :
  chapter_file root book ch = None →
  read_local_chapter root book ch = inl (FileNotFoundError book ch).
Proof.
  unfold chapter_file, read_local_chapter. intros Hf.
  destruct (at_path root book (fmt02 ch ++ lit ".json")) as [n'|]; [done|].
  by rewrite Hf.
Qed.

End ReaderFacts.

(** C10.  Let the chapter file hold a JSON object.  (1) If it has no
    "verses" key, or (2) its "verses" is the empty list, the reader
    returns no verses and does not raise.  (3) If "verses" is a non-empty
    list, its first element alone decides the shape: when it is an
    object, every element is read through its "text" key, and an element
    that is no object raises; when it is not, every element is passed
    through [str], and none raises. *)
Theorem read_local_chapter_verses `{Runtime} (root : tree) (book : list N) (ch : Z)
    (d : list (list N * pyval)) :
  chapter_file root book ch = Some (File (Loaded (PDict d))) →
  ((∀ v, (lit "verses", v) ∉ d) →
     read_local_chapter root book ch = inr ([], PDict d))
  ∧ (dict_get d (lit "verses") (PList []) = PList [] →
     read_local_chapter root book ch = inr ([], PDict d))
  ∧ (∀ v0 rest, dict_get d (lit "verses") (PList []) = PList (v0 :: rest) →
     read_local_chapter root book ch =
       if isinstance_dict v0
       then texts ← comprehension text_of (v0 :: rest); mret (texts, PDict d)
       else inr (py_str <$> v0 :: rest, PDict d)).
Proof.
  intros Hf. rewrite (read_local_chapter_found root book ch _ Hf). simpl.
  unfold mbind, result_bind, mret, result_ret. simpl.
  split; [|split].
  - intros Hno. by rewrite dict_get_absent.
  - by intros ->.
  - intros v0 rest ->. simpl. by destruct (isinstance_dict v0).
Qed.

Section ReaderExamples.
#[local] Existing Instance ascii_runtime.
Import Sample.

Lemma read_local_chapter_verses_witness :
  read_local_chapter odd_shapes_root (lit "Genesis") 1
    = inr ([], PDict [(lit "title", PStr (lit "Creation"))])
  ∧ read_local_chapter odd_shapes_root (lit "Genesis") 2
    = inr ([], PDict [(lit "verses", PList [])])
  ∧ read_local_chapter odd_shapes_root (lit "Genesis") 3 = inl AttributeError
  ∧ ∃ data, read_local_chapter odd_shapes_root (lit "Genesis") 4
             = inr ([lit "a"; lit "7"; lit "{'number': 3}"], data).
Proof.
  split; [|split; [|split]].
  - apply (proj1 (read_local_chapter_verses odd_shapes_root (lit "Genesis") 1
                    [(lit "title", PStr (lit "Creation"))] eq_refl)).
    intros v Hin. apply list_elem_of_singleton in Hin. by vm_compute in Hin.
  - by apply (proj1 (proj2 (read_local_chapter_verses odd_shapes_root (lit "Genesis") 2
                              [(lit "verses", PList [])] eq_refl))).
  - by rewrite (proj2 (proj2 (read_local_chapter_verses odd_shapes_root (lit "Genesis") 3
                                _ eq_refl)) _ _ eq_refl).
  - eexists.
    by rewrite (proj2 (proj2 (read_local_chapter_verses odd_shapes_root (lit "Genesis") 4
                                _ eq_refl)) _ _ eq_refl).
Defined.

End ReaderExamples.

(** ** Outcomes *)

Section VerdictFacts.
Context `{Runtime}.
Variable root : tree.
Variable net : network.

#[local] Arguments slice_to : simpl never.
#[local] Arguments fetch_outcome : simpl never.
#[local] Arguments fetch_ref_chapter : simpl never.
#[local] Arguments first_diff : simpl never.
#[local] Arguments read_local_chapter : simpl never.

(** The fetcher reads nothing of the world but the request count. *)
Lemma fetch_loop_requests_only book ch k last w w' :
  requests w = requests w' →
  (fetch_loop net book ch k last w).1 = (fetch_loop net book ch k last w').1
  ∧ requests (fetch_loop net book ch k last w).2
    = requests (fetch_loop net book ch k last w').2.
Proof.
  revert last w w'. induction k as [|k IH]; intros last w w' Hreq; simpl; [done|].
  io_unfold. simpl. rewrite Hreq.
  destruct (attempt _) as [[e|]|ts]; simpl; [| |done]; by apply IH.
Qed.

Lemma fetch_ref_chapter_outcome book ch w :
  (fetch_ref_chapter net book ch w).1 = (fetch_outcome net book ch (requests w)).1
  ∧ requests (fetch_ref_chapter net book ch w).2
    = (fetch_outcome net book ch (requests w)).2.
Proof.
  unfold fetch_outcome, fetch_ref_chapter. cbv zeta.
  exact (fetch_loop_requests_only book ch RETRY_COUNT None w
           (World (requests w) [] [] None) eq_refl).
Qed.

(** One pass of the chapter loop against the verdict on its chapter. *)
Lemma chapter_body_verdict book ch l w :
  (chapter_body root net book ch l w).1
    = bump l (verdict root net (book, ch) (requests w)).1
  ∧ printed (chapter_body root net book ch l w).2
    = printed w ++ [status_line (book, ch) (verdict root net (book, ch) (requests w)).1]
  ∧ requests (chapter_body root net book ch l w).2
    = (verdict root net (book, ch) (requests w)).2
  ∧ csv_out (chapter_body root net book ch l w).2 = csv_out w.
Proof.
  unfold verdict. cbn [fst snd].
  destruct (read_local_chapter root book ch) as [e|[local_verses data]] eqn:Hr.
  - rewrite (chapter_body_read_error _ _ _ _ _ _ _ Hr).
    by destruct (is_FileNotFoundError e).
  - destruct (fetch_ref_chapter_outcome book ch w) as [Hres Hreq].
    destruct (fetch_loop_quiet net book ch RETRY_COUNT None w) as [Hp Hc].
    fold (fetch_ref_chapter net book ch w) in Hp, Hc.
    destruct (fetch_ref_chapter net book ch w) as [res w1] eqn:Hf.
    destruct (fetch_outcome net book ch (requests w)) as [r n'].
    cbn [fst snd] in Hres, Hreq, Hp, Hc. subst r n'.
    destruct res as [e|ref_verses].
    + rewrite (chapter_body_fetch_error _ _ _ _ _ _ _ _ _ _ Hr Hf).
      cbn [fst snd bump status_line printed requests csv_out]. by rewrite Hp, Hc.
    + destruct (first_diff local_verses ref_verses) as [[vnum lv] rv] eqn:Hd.
      rewrite (chapter_body_compared _ _ _ _ _ _ _ _ _ _ _ _ _ Hr Hf Hd).
      cbv zeta. cbn [fst snd].
      destruct (vnum =? -1);
        cbn [fst snd bump status_line printed requests csv_out first_diff_verse];
        by rewrite Hp, Hc.
Qed.

(** A stretch of the run against the verdicts on its ChapterRefs. *)
Definition follows (l : locals) (w : world) (lw' : locals * world)
    (refs : list (list N * Z)) : Prop :=
  let vs := verdicts root net refs (requests w) in
  lw'.1 = foldl bump l vs.1
  ∧ status_lines (printed lw'.2)
    = status_lines (printed w) ++ zip_with status_line refs vs.1
  ∧ requests lw'.2 = vs.2
  ∧ csv_out lw'.2 = csv_out w.

Lemma verdicts_app refs1 refs2 n :
  verdicts root net (refs1 ++ refs2) n =
    ((verdicts root net refs1 n).1
       ++ (verdicts root net refs2 (verdicts root net refs1 n).2).1,
     (verdicts root net refs2 (verdicts root net refs1 n).2).2).
Proof.
  revert n. induction refs1 as [|r refs1 IH]; intros n; simpl.
  - by destruct (verdicts root net refs2 n).
  - by rewrite IH.
Qed.

Lemma verdicts_length refs n : length (verdicts root net refs n).1 = length refs.
Proof. revert n. induction refs as [|r refs IH]; intros n; simpl; [done|]. by rewrite IH. Qed.

Lemma follows_nil l w : follows l w (l, w) [].
Proof. unfold follows. simpl. by rewrite app_nil_r. Qed.

Lemma follows_app l w lw1 lw2 refs1 refs2 :
  follows l w lw1 refs1 → follows lw1.1 lw1.2 lw2 refs2 →
  follows l w lw2 (refs1 ++ refs2).
Proof.
  unfold follows. intros (Hl1 & Hp1 & Hr1 & Hc1) (Hl2 & Hp2 & Hr2 & Hc2).
  rewrite verdicts_app. simpl. rewrite Hr1 in *.
  rewrite Hl2, Hl1, Hp2, Hp1, Hr2, Hc2, Hc1, foldl_app, <- app_assoc.
  repeat split; try done. f_equal.
  rewrite zip_with_app; [done|]. by rewrite verdicts_length.
Qed.

Lemma follows_print l w ln :
  chapter_of_line ln = None → follows l w (l, (print ln w).2) [].
Proof.
  intros Hln. unfold follows, status_lines. simpl. rewrite filter_app.
  rewrite (filter_keep_false_line is_status_line ln []) by (by unfold is_status_line; rewrite Hln).
  by rewrite !app_nil_r.
Qed.

Lemma chapter_body_follows book ch l w :
  follows l w (chapter_body root net book ch l w) [(book, ch)].
Proof.
  destruct (chapter_body_verdict book ch l w) as (Hl & Hp & Hr & Hc).
  unfold follows. simpl. rewrite Hl, Hp, Hr, Hc. repeat split; try done.
  unfold status_lines. rewrite filter_app. f_equal.
  rewrite (filter_keep_true_line is_status_line _ []); [done|].
  unfold is_status_line. by destruct (verdict root net (book, ch) (requests w)).1.
Qed.

Lemma for_chapters_follows book chapters l w :
  follows l w (for_chapters root net book chapters l w) ((λ ch, (book, ch)) <$> chapters).
Proof.
  revert l w. induction chapters as [|ch rest IH]; intros l w; simpl.
  - apply follows_nil.
  - io_unfold. pose proof (chapter_body_follows book ch l w) as Hs.
    destruct (chapter_body root net book ch l w) as [l1 w1].
    apply (follows_app _ _ _ _ [(book, ch)] _ Hs (IH l1 w1)).
Qed.

Lemma book_body_follows book l w :
  follows l w (book_body root net book l w)
    ((λ ch, (book, ch)) <$> discover_chapters root book).
Proof.
  unfold book_body. case_bool_decide as Hch.
  - rewrite Hch. io_unfold. by apply follows_print.
  - io_unfold.
    apply (follows_app l w
             (l, (print (BookHeader book (length (discover_chapters root book))) w).2)
             _ [] _); [by apply follows_print|]. apply for_chapters_follows.
Qed.

Lemma for_books_follows books l w :
  follows l w (for_books root net books l w)
    (b ← books; (λ ch, (b, ch)) <$> discover_chapters root b).
Proof.
  revert l w. induction books as [|b rest IH]; intros l w; simpl.
  - apply follows_nil.
  - io_unfold. pose proof (book_body_follows b l w) as Hs.
    destruct (book_body root net b l w) as [l1 w1].
    apply (follows_app _ _ _ _ _ _ Hs (IH l1 w1)).
Qed.

Lemma scan_follows w :
  follows no_locals (print (FoundBooks (length (discover_books root))) w).2
    (scan root net w) (chapter_refs root).
Proof. apply for_books_follows. Qed.

End VerdictFacts.

Section OutcomeFacts.
Context `{Runtime}.
Variable root : tree.
Variable net : network.

Lemma tally_cons p o os :
  tally p (o :: os) = ((if p o then 1 else 0) + tally p os)%nat.
Proof.
  unfold tally. rewrite filter_cons. destruct (p o) eqn:Ep.
  - by rewrite decide_True by (by apply Is_true_true).
  - by rewrite decide_False by (by apply Is_true_false).
Qed.

Lemma records_cons o os :
  records (o :: os) =
    match o with Mismatched m => m :: records os | _ => records os end.
Proof. by destruct o. Qed.

Lemma foldl_bump l vs :
  totals (foldl bump l vs) = (totals l + length vs)%nat
  ∧ matched (foldl bump l vs) = (matched l + tally is_matched vs)%nat
  ∧ mismatches (foldl bump l vs) = mismatches l ++ records vs
  ∧ missing (foldl bump l vs) = (missing l + tally is_missing vs)%nat
  ∧ errors (foldl bump l vs) = (errors l + tally is_error vs)%nat.
Proof.
  revert l. induction vs as [|o vs IH]; intros l.
  - unfold tally, records. simpl. rewrite app_nil_r. split_and!; try lia; done.
  - simpl foldl. destruct (IH (bump l o)) as (Ht & Hm & Hmm & Hmi & He).
    rewrite Ht, Hm, Hmm, Hmi, He, !tally_cons, records_cons.
    destruct o; simpl; split_and!; try lia; try done; by rewrite <- app_assoc.
Qed.


Lemma write_rows_spec rows written :
  write_rows rows written =
    (if forallb row_encodable rows then inr () else inl UnicodeEncodeError,
     written ++ writable rows).
Proof.
  revert written. induction rows as [|r rows IH]; intros written; simpl.
  - by rewrite app_nil_r.
  - destruct (row_encodable r); simpl.
    + by rewrite IH, <- app_assoc.
    + by rewrite app_nil_r.
Qed.



Lemma fieldnames_encodable : row_encodable fieldnames = true.
Proof. by vm_compute. Qed.

(** What [finish] returns, leaves in the report and prints. *)
Lemma finish_spec l w :
  let rows := csv_row <$> mismatches l in
  let summary :=
    Summary (totals l) (matched l) (length (mismatches l)) (missing l) (errors l)
      (negb (bool_decide (mismatches l = []))) in
  (finish (l, w)).1 = (if forallb row_encodable rows then inr () else inl UnicodeEncodeError)
  ∧ csv_out (finish (l, w)).2 =
      (if bool_decide (mismatches l = []) then csv_out w
       else Some (fieldnames :: writable rows))
  ∧ printed (finish (l, w)).2 =
      (if forallb row_encodable rows then printed w ++ [summary] else printed w)
  ∧ requests (finish (l, w)).2 = requests w.
Proof.
  intros rows summary. subst rows summary. unfold finish. cbn [fst snd].
  case_bool_decide as Hm.
  - by rewrite Hm.
  - rewrite write_rows_spec. cbn [fst snd forallb app].
    rewrite fieldnames_encodable. cbn [andb writable]. rewrite fieldnames_encodable.
    by destruct (forallb row_encodable (csv_row <$> mismatches l)).
Qed.

(** An error raised once the chapter file is found is never
    [FileNotFoundError]. *)
Lemma comprehension_error {A B} (f : A → result B) xs e :
  comprehension f xs = inl e → ∃ x, x ∈ xs ∧ f x = inl e.
Proof.
  induction xs as [|x xs IH]; simpl; [done|].
  unfold mbind, result_bind, mret, result_ret.
  destruct (f x) as [e'|y] eqn:Ef.
  - intros [= <-]. exists x. split; [left|done].
  - destruct (comprehension f xs) as [e'|ys]; [|done].
    intros [= <-]. destruct (IH eq_refl) as (x' & Hin & Hx'). exists x'.
    split; [by right|done].
Qed.

Lemma index0_error v e : index0 v = inl e → is_FileNotFoundError e = false.
Proof.
  destruct v as [|b|z|bits|s|l|d]; try destruct s; try destruct l; simpl;
    intros Heq; by simplify_eq.
Qed.

Lemma iterate_error v e : iterate v = inl e → is_FileNotFoundError e = false.
Proof. destruct v; simpl; intros Heq; by simplify_eq. Qed.

Lemma get_error v key default e :
  get v key default = inl e → is_FileNotFoundError e = false.
Proof. destruct v; simpl; intros Heq; by simplify_eq. Qed.

Lemma text_of_error v e : text_of v = inl e → is_FileNotFoundError e = false.
Proof.
  unfold text_of, mbind, result_bind.
  destruct (get v _ _) as [e'|t] eqn:Eg; [|done].
  intros [= <-]. by eapply get_error.
Qed.

Lemma load_error n e : load n = inl e → is_FileNotFoundError e = false.
Proof. destruct n as [[msg|msg|data]|children]; simpl; intros Heq; by simplify_eq. Qed.

Lemma read_local_chapter_found_error book ch n e :
  chapter_file root book ch = Some n →
  read_local_chapter root book ch = inl e → is_FileNotFoundError e = false.
Proof.
  intros Hf. rewrite (read_local_chapter_found root book ch n Hf).
  unfold mbind, result_bind, mret, result_ret.
  destruct (load n) as [e0|data] eqn:El; [intros [= <-]; by eapply load_error|].
  destruct (get data _ _) as [e0|verses] eqn:Eg; [intros [= <-]; by eapply get_error|].
  assert (∀ b : bool,
    match iterate verses with
    | inl e1 => inl e1
    | inr vs =>
        match (if b then comprehension text_of vs else inr (py_str <$> vs)) with
        | inl e2 => inl e2
        | inr ts => inr (ts, data)
        end
    end = inl e → is_FileNotFoundError e = false) as Hrest.
  { intros b. destruct (iterate verses) as [e1|vs] eqn:Eit.
    - intros [= <-]. by eapply iterate_error.
    - destruct b; [|done].
      destruct (comprehension text_of vs) as [e2|ts] eqn:Ec; [|done].
      intros [= <-]. apply comprehension_error in Ec as (x & _ & Hx).
      by eapply text_of_error. }
  destruct (truthy verses).
  - destruct (index0 verses) as [e0|v0] eqn:Ei; [intros [= <-]; by eapply index0_error|].
    apply Hrest.
  - apply (Hrest false).
Qed.

(** A chapter is reported missing exactly when neither file exists. *)
Lemma verdict_missing ref n :
  is_missing (verdict root net ref n).1 = absent root ref.
Proof.
  unfold verdict, absent.
  destruct (chapter_file root ref.1 ref.2) as [nd|] eqn:Hf.
  - destruct (read_local_chapter root ref.1 ref.2) as [e|[lv data]] eqn:Hr.
    + by rewrite (read_local_chapter_found_error _ _ _ _ Hf Hr).
    + destruct (fetch_outcome net ref.1 ref.2 n) as [[e|rv] n']; [done|].
      cbn [fst snd]. by destruct (_ =? -1).
  - by rewrite (read_local_chapter_missing root _ _ Hf).
Qed.

Lemma verdicts_missing refs n :
  tally is_missing (verdicts root net refs n).1
    = length (filter (λ ref, absent root ref) refs).
Proof.
  revert n. induction refs as [|ref refs IH]; intros n; [done|].
  cbn [verdicts fst snd]. rewrite tally_cons, verdict_missing, IH, filter_cons.
  destruct (absent root ref) eqn:Ea.
  - by rewrite decide_True by (by apply Is_true_true).
  - by rewrite decide_False by (by apply Is_true_false).
Qed.

(** Each outcome is the verdict on its own ChapterRef, at some count of
    requests. *)
Lemma verdicts_lookup refs n i ref :
  refs !! i = Some ref →
  ∃ n', (verdicts root net refs n).1 !! i = Some (verdict root net ref n').1.
Proof.
  revert n i. induction refs as [|r refs IH]; intros n i Hi; [done|].
  destruct i as [|i]; simpl in *.
  - injection Hi as ->. by exists n.
  - by apply IH.
Qed.

End OutcomeFacts.

Section MainFacts.
Context `{Runtime}.
Variable root : tree.
Variable net : network.

Lemma status_lines_snoc_other ls ln :
  chapter_of_line ln = None → status_lines (ls ++ [ln]) = status_lines ls.
Proof.
  intros Hln. unfold status_lines. rewrite filter_app.
  rewrite (filter_keep_false_line is_status_line ln [])
    by (by unfold is_status_line; rewrite Hln).
  by rewrite app_nil_r.
Qed.

(** The locals and the world after the two loops. *)
Lemma scan_spec w :
  let vs := (verdicts root net (chapter_refs root) (requests w)).1 in
  (scan root net w).1 = foldl bump no_locals vs
  ∧ status_lines (printed (scan root net w).2)
    = status_lines (printed w) ++ zip_with status_line (chapter_refs root) vs
  ∧ csv_out (scan root net w).2 = csv_out w.
Proof.
  destruct (scan_follows root net w) as (Hl & Hp & _ & Hc).
  cbn [print snd requests printed csv_out] in Hl, Hp, Hc.
  rewrite Hl, Hp, Hc. by rewrite status_lines_snoc_other.
Qed.

Lemma scan_locals w :
  let vs := (verdicts root net (chapter_refs root) (requests w)).1 in
  totals (scan root net w).1 = length (chapter_refs root)
  ∧ matched (scan root net w).1 = tally is_matched vs
  ∧ mismatches (scan root net w).1 = records vs
  ∧ missing (scan root net w).1 = tally is_missing vs
  ∧ errors (scan root net w).1 = tally is_error vs.
Proof.
  intros vs. destruct (scan_spec w) as (Hl & _ & _). fold vs in Hl. rewrite Hl.
  destruct (foldl_bump no_locals vs) as (Ht & Hm & Hmm & Hmi & He).
  rewrite Ht, Hm, Hmm, Hmi, He. subst vs. rewrite verdicts_length. done.
Qed.

Lemma main_status_lines w :
  status_lines (printed (main root net w).2)
    = status_lines (printed w)
      ++ zip_with status_line (chapter_refs root)
           (verdicts root net (chapter_refs root) (requests w)).1.
Proof.
  destruct (decide (discover_books root = [])) as [Hb|Hb].
  - rewrite main_no_books by done. unfold chapter_refs. rewrite Hb.
    cbn [snd printed]. rewrite status_lines_snoc_other by done.
    simpl. by rewrite app_nil_r.
  - rewrite main_scan by done. destruct (scan_spec w) as (_ & Hp & _).
    destruct (scan root net w) as [l1 w1].
    destruct (finish_spec l1 w1) as (_ & _ & Hpf & _). rewrite Hpf.
    destruct (forallb _ _); [|done]. by rewrite status_lines_snoc_other.
Qed.

Lemma main_result w :
  (main root net w).1 =
    if forallb row_encodable (csv_row <$> mismatches (scan root net w).1)
    then inr () else inl UnicodeEncodeError.
Proof.
  destruct (decide (discover_books root = [])) as [Hb|Hb].
  - rewrite main_no_books by done. unfold scan. by rewrite Hb.
  - rewrite main_scan by done. destruct (scan root net w) as [l1 w1].
    by destruct (finish_spec l1 w1) as (-> & _).
Qed.

Lemma main_summary w :
  discover_books root ≠ [] →
  (main root net w).1 = inr () →
  let l := (scan root net w).1 in
  last (printed (main root net w).2) =
    Some (Summary (totals l) (matched l) (length (mismatches l)) (missing l) (errors l)
            (negb (bool_decide (mismatches l = [])))).
Proof.
  intros Hb Hok. rewrite main_result in Hok. rewrite main_scan by done.
  destruct (scan root net w) as [l1 w1]. cbn [fst] in *.
  destruct (finish_spec l1 w1) as (_ & _ & -> & _).
  destruct (forallb _ _); [|done]. by rewrite last_snoc.
Qed.



End MainFacts.

(** C7.  Let [vs] be the outcomes of the ChapterRefs of the corpus, each
    the verdict on its own chapter.  (1) When discovery finds no book,
    [main] prints its diagnostic and returns: no request is sent, no
    chapter is reported on, the report file is as it was.  (2) The
    console shows one status line per ChapterRef, in order, and it is
    the line of that chapter's own outcome, whatever became of the
    chapters before it.  (3) A chapter whose local files are both absent
    has the outcome Missing, one whose local file cannot be read has the
    outcome ReadError, and every outcome is the verdict on its own
    ChapterRef at some count of requests.  (4) When [main] returns, its
    last line is the summary, whose counts are the numbers of outcomes of
    each kind; the missing count is the number of ChapterRefs whose
    files are absent. *)
Theorem run_isolates_failures `{Runtime} (root : tree) (net : network) (w : world) :
  let refs := chapter_refs root in
  let vs := (verdicts root net refs (requests w)).1 in
  (discover_books root = [] →
     main root net w =
       (inr (), World (requests w) (slept w) (printed w ++ [NoBooksFound]) (csv_out w)))
  ∧ status_lines (printed (main root net w).2)
    = status_lines (printed w) ++ zip_with status_line refs vs
  ∧ length vs = length refs
  ∧ (∀ i ref, refs !! i = Some ref → absent root ref = true → vs !! i = Some Missing)
  ∧ (∀ i ref e, refs !! i = Some ref →
       read_local_chapter root ref.1 ref.2 = inl e →
       vs !! i = Some (if is_FileNotFoundError e then Missing else ReadError e))
  ∧ (∀ i ref, refs !! i = Some ref →
       ∃ n, vs !! i = Some (verdict root net ref n).1)
  ∧ (discover_books root ≠ [] → (main root net w).1 = inr () →
     last (printed (main root net w).2) =
       Some (Summary (length refs) (tally is_matched vs) (length (records vs))
               (tally is_missing vs) (tally is_error vs)
               (negb (bool_decide (records vs = [])))))
  ∧ tally is_missing vs = length (filter (λ ref, absent root ref) refs).
Proof.
  intros refs vs. split_and!.
  - apply main_no_books.
  - apply main_status_lines.
  - apply verdicts_length.
  - intros i ref Hi Ha.
    destruct (verdicts_lookup root net refs (requests w) i ref Hi) as [n Hn].
    subst vs. rewrite Hn. f_equal.
    pose proof (verdict_missing root net ref n) as Hm. rewrite Ha in Hm.
    by destruct (verdict root net ref n).1.
  - intros i ref e Hi Hr.
    destruct (verdicts_lookup root net refs (requests w) i ref Hi) as [n Hn].
    subst vs. rewrite Hn. unfold verdict. by rewrite Hr.
  - intros i ref Hi. by apply verdicts_lookup.
  - intros Hb Hok. rewrite (main_summary root net w Hb Hok).
    destruct (scan_locals root net w) as (Ht & Hm & Hmm & Hmi & He).
    by rewrite Ht, Hm, Hmm, Hmi, He.
  - apply verdicts_missing.
Qed.



Section RunExamples.
#[local] Existing Instance ascii_runtime.
Import Sample.

(** A run over a book with one chapter of each fate. *)
Lemma main_mixed :
  main mixed_root mixed_net w0 =
    (inr (),
     World 5 [250; 250; 1500; 1500; 1500]%N
       [FoundBooks 1; BookHeader (lit "Genesis") 5;
        MatchLine (lit "Genesis") 1;
        ReadErrorLine (lit "Genesis") 2 (JSONDecodeError (lit "Expecting value"));
        MissingLine (lit "Genesis") 4;
        MismatchLine (lit "Genesis") 5 1;
        FetchErrorLine (lit "Genesis") 6
          (RuntimeError (lit "Genesis") 6 (Some (HTTPError 500)));
        Summary 5 1 1 1 2 true]
       (Some [fieldnames;
              [lit "Genesis"; lit "5"; lit "1"; lit "2"; lit "1";
               lit "In the end"; genesis_1_1]])).
Proof. by vm_compute. Qed.

(** A run whose only record holds a lone surrogate: the report write
    raises after the header, and no summary is printed. *)
Lemma main_surrogate :
  main surrogate_root mixed_net w0 =
    (inl UnicodeEncodeError,
     World 1 [250]%N
       [FoundBooks 1; BookHeader (lit "Genesis") 1; MismatchLine (lit "Genesis") 1 1]
       (Some [fieldnames])).
Proof. by vm_compute. Qed.

Lemma run_isolates_failures_witness :
  main [] mixed_net w0 = (inr (), World 0 [] [NoBooksFound] None)
  ∧ status_lines (printed (main mixed_root mixed_net w0).2) =
      [MatchLine (lit "Genesis") 1;
       ReadErrorLine (lit "Genesis") 2 (JSONDecodeError (lit "Expecting value"));
       MissingLine (lit "Genesis") 4;
       MismatchLine (lit "Genesis") 5 1;
       FetchErrorLine (lit "Genesis") 6
         (RuntimeError (lit "Genesis") 6 (Some (HTTPError 500)))]
  ∧ last (printed (main mixed_root mixed_net w0).2) = Some (Summary 5 1 1 1 2 true).
Proof.
  pose proof (run_isolates_failures [] mixed_net w0) as (Hno & _).
  pose proof (run_isolates_failures mixed_root mixed_net w0)
    as (_ & Hlines & _ & _ & _ & _ & Hsum & _).
  split; [by apply Hno|]. split.
  - etrans; [exact Hlines|]. by vm_compute.
  - etrans; [apply Hsum; by vm_compute|]. by vm_compute.
Defined.



End RunExamples.
(** * Further properties of the code *)

(** ** Loose normalisation *)

Section LooseFacts.
Context `{Runtime}.

Lemma squash_tidy s :
  spaced_tail (squash InWord s)
  ∧ (squash Pending s = [] ∨ ∃ c t, squash Pending s = 32%N :: c :: t
                                     ∧ isspace c = false ∧ spaced_tail t)
  ∧ tidy (squash Start s).
Proof.
  induction s as [|c t (IH1 & IH2 & IH3)]; simpl.
  - split; [constructor|]. split; [by left|constructor].
  - destruct (isspace c) eqn:Ec; simpl.
    + split; [|done]. destruct IH2 as [->|(c' & t' & -> & Hc' & Ht')]; by constructor.
    + split; [by constructor|]. split; [|by constructor]. right. eauto.
Qed.

Lemma spaced_tail_space_is_32 r c :
  spaced_tail r → c ∈ r → isspace c = true → c = 32%N.
Proof.
  induction 1 as [|d t Hd _ IH|d t Hd _ IH]; intros Hin Hc.
  - by apply elem_of_nil in Hin.
  - apply elem_of_cons in Hin as [->|Hin]; [congruence|auto].
  - apply elem_of_cons in Hin as [->|Hin]; [done|].
    apply elem_of_cons in Hin as [->|Hin]; [congruence|auto].
Qed.

Lemma spaced_tail_no_double r pre a b post :
  spaced_tail r → r = pre ++ a :: b :: post → isspace a = true → isspace b = false.
Proof.
  intros Hr. revert pre. induction Hr as [|d t Hd _ IH|d t Hd Ht IH]; intros pre Heq Ha.
  - by destruct pre.
  - destruct pre as [|p pre]; simplify_eq/=; [congruence|]. by eapply IH.
  - destruct pre as [|p [|q pre]]; simplify_eq/=; [done|congruence|]. by eapply IH.
Qed.

Lemma spaced_tail_last r t c :
  spaced_tail r → r = t ++ [c] → isspace c = false.
Proof.
  intros Hr. revert t. induction Hr as [|d u Hd _ IH|d u Hd Hu IH]; intros t Heq.
  - by destruct t.
  - destruct t as [|p t].
    + by injection Heq as <- _.
    + injection Heq as _ Heq. by eapply IH.
  - destruct t as [|p [|q t]].
    + done.
    + by injection Heq as _ <- _.
    + injection Heq as _ _ Heq. by eapply IH.
Qed.

Lemma straight_quote_not_curly c : ¬ curly (straight_quote c).
Proof.
  assert (∀ d : N, d ≠ 8220%N → d ≠ 8221%N → d ≠ 8217%N → d ≠ 8216%N → ¬ curly d) as Hno.
  { intros d ???? Hin. unfold curly in Hin.
    repeat (apply elem_of_cons in Hin as [Hin|Hin]; [done|]).
    by apply elem_of_nil in Hin. }
  unfold straight_quote.
  destruct (N.eqb_spec c 8220) as [E1|H1]; [by apply Hno|].
  destruct (N.eqb_spec c 8221) as [E2|H2]; [by apply Hno|].
  destruct (N.eqb_spec c 8217) as [E3|H3]; [by apply Hno|].
  destruct (N.eqb_spec c 8216) as [E4|H4]; [by apply Hno|].
  by apply Hno.
Qed.

Lemma squash_elem g s c : c ∈ squash g s → c = 32%N ∨ c ∈ s.
Proof.
  revert g. induction s as [|d t IH]; intros g; simpl; [by intros ?%elem_of_nil|].
  assert (∀ g', c ∈ d :: squash g' t → c = 32%N ∨ c ∈ d :: t) as Hcons.
  { intros g' [->|[?|?]%IH]%elem_of_cons; [right; left|by left|right; by right]. }
  destruct (isspace d).
  - intros [?|?]%IH; [by left|right; by right].
  - destruct g; [apply Hcons..|].
    intros [->|Hin]%elem_of_cons; [by left|by eapply Hcons].
Qed.

Lemma squash_nil_iff g s : squash g s = [] ↔ forallb isspace s = true.
Proof.
  revert g. induction s as [|c t IH]; intros g; simpl; [done|].
  destruct (isspace c); simpl; [apply IH|]. by destruct g.
Qed.

Lemma quotes_not_space (d : N) :
  unicode_facts → d ∈ [8220; 8221; 8217; 8216; 34; 39]%N → isspace d = false.
Proof.
  intros [_ Hq] Hd. apply Hq in Hd. unfold PUNCT_RX_match in Hd.
  destruct (isspace d); [|done]. by rewrite orb_true_r in Hd.
Qed.

Lemma isspace_straight_quote c :
  unicode_facts → isspace (straight_quote c) = isspace c.
Proof.
  intros Hf.
  assert (∀ d : N, d ∈ [8220; 8221; 8217; 8216; 34; 39]%N → isspace d = false) as Hns
    by (intros d; by apply quotes_not_space).
  unfold straight_quote.
  destruct (N.eqb_spec c 8220) as [E1|H1].
  { rewrite E1, !Hns; [done|repeat first [apply list_elem_of_here|apply list_elem_of_further]..]. }
  destruct (N.eqb_spec c 8221) as [E2|H2].
  { rewrite E2, !Hns; [done|repeat first [apply list_elem_of_here|apply list_elem_of_further]..]. }
  destruct (N.eqb_spec c 8217) as [E3|H3].
  { rewrite E3, !Hns; [done|repeat first [apply list_elem_of_here|apply list_elem_of_further]..]. }
  destruct (N.eqb_spec c 8216) as [E4|H4]; [|done].
  rewrite E4, !Hns; [done|repeat first [apply list_elem_of_here|apply list_elem_of_further]..].
Qed.

End LooseFacts.

Section LooseTheorems.
Context `{Runtime}.

Lemma squash_Start_leading pre s :
  forallb isspace pre = true → squash Start (pre ++ s) = squash Start s.
Proof.
  induction pre as [|c pre IH]; [done|]. simpl.
  intros [Hc Hpre]%andb_true_iff. rewrite Hc. auto.
Qed.

Lemma squash_trailing g s post :
  forallb isspace post = true → squash g (s ++ post) = squash g s.
Proof.
  intros Hpost. revert g. induction s as [|c s IH]; intros g; simpl.
  - by apply squash_nil_iff.
  - destruct (isspace c); [apply IH|]. destruct g; by rewrite IH.
Qed.

Lemma filter_keep_app_space (keep : N → bool) (pre s : list N) :
  (∀ c, isspace c = true → keep c = true) →
  forallb isspace pre = true →
  filter (λ c, keep c) pre = pre.
Proof.
  intros Hk. induction pre as [|c pre IH]; [done|]. simpl.
  intros [Hc Hpre]%andb_true_iff. rewrite filter_keep_true by auto. by rewrite IH.
Qed.

Lemma punct_keeps_space c : isspace c = true → negb (PUNCT_RX_match c) = true.
Proof. intros Hc. unfold PUNCT_RX_match. by rewrite Hc, orb_true_r. Qed.

End LooseTheorems.

(** Loose normalisation is idempotent: normalising an already
    normalised text changes nothing. *)
Theorem norm_text_idempotent `{Runtime} (s : list N) :
  unicode_facts → norm_text (norm_text s) = norm_text s.
Proof. apply norm_text_idemp. Qed.

(** The shape of a Loose-normalised text: it holds none of the four
    curly quotation marks, its only whitespace character is U+0020, it
    neither starts nor ends with whitespace, and no two whitespace
    characters are adjacent. *)
Theorem norm_text_tidy `{Runtime} (s : list N) :
  isspace 32%N = true →
  (∀ c, c ∈ norm_text s → ¬ curly c)
  ∧ (∀ c, c ∈ norm_text s → isspace c = true → c = 32%N)
  ∧ (∀ c t, norm_text s = c :: t → isspace c = false)
  ∧ (∀ t c, norm_text s = t ++ [c] → isspace c = false)
  ∧ (∀ pre a b post, norm_text s = pre ++ a :: b :: post →
       isspace a = true → isspace b = false).
Proof.
  intros Hsp. rewrite norm_text_squash by done.
  destruct (squash_tidy (straight_quotes s)) as (_ & _ & Ht).
  split; [|split; [|split; [|split]]].
  - intros c [->|Hin]%squash_elem.
    + unfold curly. intros Hin.
      repeat (apply elem_of_cons in Hin as [Hin|Hin]; [done|]).
      by apply elem_of_nil in Hin.
    + rewrite straight_quotes_fmap in Hin.
      apply list_elem_of_fmap in Hin as (d & -> & _). apply straight_quote_not_curly.
  - intros c Hin Hc. inversion Ht as [Hnil|d t Hd Hst Heq].
    + rewrite <- Hnil in Hin. by apply elem_of_nil in Hin.
    + rewrite <- Heq in Hin. apply elem_of_cons in Hin as [->|Hin]; [congruence|].
      by eapply spaced_tail_space_is_32.
  - intros c t Heq. rewrite Heq in Ht. by inversion Ht.
  - intros t c Heq. rewrite Heq in Ht. inversion Ht as [Hnil|d u Hd Hst Heq'].
    + by destruct t.
    + destruct t as [|p t].
      * by injection Heq' as -> _.
      * injection Heq' as _ ->. by eapply spaced_tail_last.
  - intros pre a b post Heq Ha. rewrite Heq in Ht.
    inversion Ht as [Hnil|d u Hd Hst Heq'].
    + by destruct pre.
    + destruct pre as [|p pre].
      * injection Heq' as -> _. congruence.
      * injection Heq' as _ ->. by eapply spaced_tail_no_double.
Qed.

(** A text normalises to the empty string exactly when it consists of
    whitespace only. *)
Theorem norm_text_empty_iff `{Runtime} (s : list N) :
  unicode_facts → norm_text s = [] ↔ forallb isspace s = true.
Proof.
  intros Hf. rewrite norm_text_squash by apply Hf. rewrite squash_nil_iff.
  rewrite straight_quotes_fmap.
  induction s as [|c s IH]; [done|]. rewrite fmap_cons. simpl.
  by rewrite isspace_straight_quote, !andb_true_iff, IH.
Qed.

(** Strict normalisation is blind to what Loose normalisation evens
    out: whitespace around the text and the style of its quotation
    marks. *)
Theorem norm_text_strict_ignores_layout `{Runtime} (s pre post : list N) :
  unicode_facts →
  forallb isspace pre = true → forallb isspace post = true →
  norm_text_strict (pre ++ s ++ post) = norm_text_strict s
  ∧ norm_text_strict (straight_quotes s) = norm_text_strict s
  ∧ norm_text_strict (norm_text s) = norm_text_strict s.
Proof.
  intros Hf Hpre Hpost. split; [|split].
  - rewrite !norm_text_strict_closed_form by done. f_equal.
    rewrite !filter_app.
    rewrite (filter_keep_app_space (λ c, negb (PUNCT_RX_match c)) pre s)
      by (done || apply punct_keeps_space).
    rewrite (filter_keep_app_space (λ c, negb (PUNCT_RX_match c)) post s)
      by (done || apply punct_keeps_space).
    by rewrite squash_Start_leading, squash_trailing.
  - rewrite !norm_text_strict_closed_form by done. f_equal. f_equal.
    unfold straight_quotes. destruct Hf as [_ Hq].
    rewrite !filter_replace; [done|apply Hq;
      repeat first [apply list_elem_of_here|apply list_elem_of_further]..].
  - unfold norm_text_strict. by rewrite norm_text_idemp.
Qed.

Section LooseExamples.
#[local] Existing Instance ascii_runtime.

Lemma norm_text_idempotent_witness :
  norm_text (norm_text (lit "  In  the   beginning ")) = norm_text (lit "  In  the   beginning ").
Proof. apply norm_text_idempotent, ascii_unicode_facts. Defined.

Lemma norm_text_tidy_witness :
  ∀ c t, norm_text (lit "  In  the   beginning ") = c :: t → isspace c = false.
Proof.
  apply (norm_text_tidy (H:=ascii_runtime) (lit "  In  the   beginning ")
           ltac:(by vm_compute)).
Defined.

Lemma norm_text_empty_iff_witness :
  norm_text [32; 9; 10; 160]%N = [].
Proof. by apply (norm_text_empty_iff _ ascii_unicode_facts). Defined.

Lemma norm_text_strict_ignores_layout_witness :
  norm_text_strict ([32; 9]%N ++ lit "God said" ++ [10]%N) = norm_text_strict (lit "God said").
Proof.
  by apply (norm_text_strict_ignores_layout (lit "God said") [32; 9]%N [10]%N
              ascii_unicode_facts).
Defined.

End LooseExamples.
